(** * The tag extension of the bot (exts/tags.py)

    A shallow embedding of the [Tags] extension: the slash commands
    [view], [info], [list], [create], [edit] and [delete], the modal
    handlers [add_tag] and [edit_tag], and the autocomplete callback,
    over an explicit model of the [Tag] collection they read and write. *)

From Stdlib Require Import Ascii String NArith ZArith DecimalString.
From stdpp Require Import base numbers option list sorting strings gmap fin_maps.

(** ** Python strings *)

Module Str.

(** [s.startswith(p)] *)
Fixpoint startswith (p s : string) : bool :=
  match p, s with
  | EmptyString, _ => true
  | String a p', String b s' => if Ascii.eqb a b then startswith p' s' else false
  | String _ _, EmptyString => false
  end.

Fixpoint drop (k : nat) (s : string) : string :=
  match k, s with
  | O, _ => s
  | S k', String _ s' => drop k' s'
  | S _, EmptyString => EmptyString
  end.

(** [s.removeprefix(p)] *)
Definition removeprefix (p s : string) : string :=
  if startswith p s then drop (String.length p) s else s.

(** [needle in hay] *)
Fixpoint contains (needle hay : string) : bool :=
  startswith needle hay
  || match hay with
     | EmptyString => false
     | String _ hay' => contains needle hay'
     end.

(** [sep.join(l)] *)
Fixpoint join (sep : string) (l : list string) : string :=
  match l with
  | [] => EmptyString
  | [x] => x
  | x :: l' => x +:+ sep +:+ join sep l'
  end.

(** the text before the first [sep], and the texts between the
    following ones *)
Fixpoint split_first (sep : ascii) (s : string) : string * list string :=
  match s with
  | EmptyString => (EmptyString, [])
  | String c s' =>
      let '(x, l) := split_first sep s' in
      if Ascii.eqb c sep then (EmptyString, x :: l) else (String c x, l)
  end.

(** [s.split(sep)] for a separator of one character *)
Definition split (sep : ascii) (s : string) : list string :=
  let '(x, l) := split_first sep s in x :: l.

(** [str(n)] for a non-negative integer *)
Definition of_nat (n : nat) : string := NilZero.string_of_uint (Nat.to_uint n).
Definition of_N (n : N) : string := NilZero.string_of_uint (N.to_uint n).

(** [s.lower()] on a string of ASCII characters *)
Definition ascii_lower_char (c : ascii) : ascii :=
  let n := N_of_ascii c in
  if ((65 <=? n) && (n <=? 90))%N then ascii_of_N (n + 32) else c.

Fixpoint ascii_lower (s : string) : string :=
  match s with
  | EmptyString => EmptyString
  | String c s' => String (ascii_lower_char c) (ascii_lower s')
  end.

Fixpoint is_ascii (s : string) : bool :=
  match s with
  | EmptyString => true
  | String c s' => (N_of_ascii c <? 128)%N && is_ascii s'
  end.

End Str.

(** ** Object ids

    A document id is a BSON ObjectId: twelve bytes, written as twenty-four
    hexadecimal digits.  The model keeps the value of the twelve bytes as
    a number below [2^96]. *)

Abbreviation ObjectId := N (only parsing).

Module Oid.

Definition valid (i : ObjectId) : Prop := (i < 2 ^ 96)%N.

Definition hex_digit (d : N) : ascii :=
  match d with
  | 0 => "0" | 1 => "1" | 2 => "2" | 3 => "3" | 4 => "4" | 5 => "5"
  | 6 => "6" | 7 => "7" | 8 => "8" | 9 => "9" | 10 => "a" | 11 => "b"
  | 12 => "c" | 13 => "d" | 14 => "e" | _ => "f"
  end%N%char.

Definition hex_value (c : ascii) : option N :=
  let n := N_of_ascii c in
  if ((48 <=? n) && (n <=? 57))%N then Some (n - 48)%N
  else if ((97 <=? n) && (n <=? 102))%N then Some (n - 87)%N
  else if ((65 <=? n) && (n <=? 70))%N then Some (n - 55)%N
  else None.

(** the [k] low hexadecimal digits of [n], most significant first,
    in front of [rest] *)
Fixpoint hex (k : nat) (n : N) (rest : string) : string :=
  match k with
  | O => rest
  | S k' => hex k' (n / 16)%N (String (hex_digit (n mod 16)%N) rest)
  end.

(** [str(oid)] *)
Definition str (i : ObjectId) : string := hex 24 i EmptyString.

(** ASCII white space, which [bytes.fromhex] skips between two bytes *)
Definition is_space (c : ascii) : bool :=
  let n := N_of_ascii c in
  ((n =? 32) || ((9 <=? n) && (n <=? 13)))%N.

(** [bytes.fromhex(s)]: the bytes that [s] writes with two hexadecimal
    digits each, white space before a byte being skipped; [None] where
    it raises ValueError *)
Fixpoint fromhex (s : string) : option (list N) :=
  match s with
  | EmptyString => Some []
  | String c s' =>
      if is_space c then fromhex s'
      else
        match hex_value c, s' with
        | Some top, String c' s'' =>
            match hex_value c' with
            | Some bot => cons (16 * top + bot)%N <$> fromhex s''
            | None => None
            end
        | _, _ => None
        end
  end.

(** the number read from bytes, most significant first, after [acc] *)
Definition unbytes (acc : N) (bs : list N) : N :=
  fold_left (fun a b => 256 * a + b)%N bs acc.

(** The id made of the bytes [bs], at most twelve: the value of the
    bytes, to which [2^96] is added for each byte short of twelve, so
    that an id of twelve bytes is below [2^96] and ids of different
    lengths differ. *)
Definition of_bytes (bs : list N) : ObjectId :=
  (N.of_nat (12 - length bs) * 2 ^ 96 + unbytes 0 bs)%N.

(** the [k] low bytes of [n], most significant first: the bytes of an
    id of [k] bytes *)
Fixpoint be_bytes (k : nat) (n : N) : list N :=
  match k with
  | O => []
  | S k' => be_bytes k' (n / 256)%N ++ [(n mod 256)%N]
  end.

(** [PydanticObjectId(s)]: for a string of twenty-four characters the
    id made of the bytes [bytes.fromhex] reads from it, and [None]
    where bson raises [InvalidId]: on another length, or where
    [bytes.fromhex] raises. *)
Definition PydanticObjectId (s : string) : option ObjectId :=
  if Nat.eqb (String.length s) 24 then of_bytes <$> fromhex s else None.

End Oid.

(** ** The Tag document and its collection *)

Abbreviation datetime := Z (only parsing).

(** Modelled from the spec: the declaration of the [Tag] document
    (common.models) is not part of the sources read here.  Its fields are
    the ones the spec lists, which are the ones tags.py reads and writes;
    the id of a stored document is its key in the collection. *)
Record Tag := mkTag {
  name : string;
  author_id : string;
  description : string;
  created_at : datetime;
  last_edited_at : option datetime
}.

Abbreviation Store := (gmap N Tag) (only parsing).
Abbreviation Document := (N * Tag)%type (only parsing).

Module Collection.

(** The order of two documents in the collection: by their ids.  The
    ids the driver gives grow with the time of the insertion (an ObjectId
    starts with the time of its creation, followed by a counter), so
    this is the order in which the documents were inserted. *)
Definition by_id (d e : Document) : Prop := (d.1 <= e.1)%N.

#[global] Instance by_id_dec : RelDecision by_id := fun d e => decide (d.1 <= e.1)%N.

(** [Tag.find_all()]: the documents, in the order of the collection *)
Definition find_all (s : Store) : list Document := merge_sort by_id (map_to_list s).

Definition named (n : string) (d : Document) : bool := String.eqb (name d.2) n.

(** [Tag.find_one(Tag.name == n)]: the first document named [n] *)
Definition find_one (n : string) (s : Store) : option Document :=
  head (List.filter (named n) (find_all s)).

(** [Tag.get(oid)] *)
Definition get (i : ObjectId) (s : Store) : option Tag := s !! i.

(** [tag.insert()] of a new document to which the driver gives the id
    [i]; an id already in use is refused by the primary key *)
Definition insert (i : ObjectId) (t : Tag) (s : Store) : option Store :=
  match s !! i with
  | Some _ => None
  | None => Some (<[i := t]> s)
  end.

(** [tag.save()]: the document with id [i] is replaced by [t] *)
Definition save (i : ObjectId) (t : Tag) (s : Store) : Store := <[i := t]> s.

(** [tag.delete()] *)
Definition delete (i : ObjectId) (s : Store) : Store := base.delete i s.

End Collection.

(** ** What a handler answers *)

Record Choice := mkChoice { choice_name : string; choice_value : string }.

Record EmbedField := mkField { field_name : string; field_value : string }.

Record Embed := mkEmbed {
  embed_title : string;
  embed_description : string;
  embed_fields : list EmbedField
}.

Inductive Message :=
| Content (text : string)
    (** [view]: the description of the tag *)
| AlreadyExists (tag_name : string)
    (** ":x: Tag `tag_name` already exists." *)
| NowExists (tag_name : string)
    (** ":heavy_check_mark: `tag_name` now exists." *)
| Edited (tag_name : string)
    (** ":heavy_check_mark: Tag `tag_name` has been edited." *)
| Renamed (original_name tag_name : string)
    (** "... has been edited and re-named to `tag_name`." *)
| OriginalNotFound
    (** ":x: The original tag could not be found." *)
| Deleted (tag_name : string)
    (** ":heavy_check_mark: Tag `tag_name` has been successfully deleted." *)
| Embeds (es : list Embed)
    (** [ctx.send(embeds=embeds)] *)
| Paginator (pages : list Embed)
    (** [pag.send(ctx)] *)
| Choices (cs : list Choice).
    (** the answer of the autocomplete callback *)

Inductive Exception :=
| BadArgument_NotExist (tag_name : string)
    (** [naff.errors.BadArgument(":x: Tag tag_name does not exist.")] *)
| InvalidId
    (** raised by [PydanticObjectId] *)
| DuplicateKeyError
    (** raised by the driver on an id already in use *)
| IndexError.
    (** raised by the paginator that is sent without a page *)

Inductive Outcome :=
| Sent (m : Message)
| Raised (e : Exception).

(** The submitted form: the modal's custom id, its two text inputs and
    the user who sent it. *)
Record ModalContext := mkModal {
  custom_id : string;
  tag_name : string;
  tag_description : string;
  author : N
}.

(** What the handler reads from outside: [datetime.datetime.now()] and
    the id the driver gives to an inserted document. *)
Record World := mkWorld {
  now : datetime;
  new_id : N
}.

(** A text input of a form and the form itself, as the [create] and
    [edit] commands build them. *)
Record TextInput := mkInput {
  input_paragraph : bool;
  input_label : string;
  input_value : option string;
  input_placeholder : string;
  input_custom_id : string;
  input_min_length : nat;
  input_max_length : nat
}.

Record Modal := mkForm {
  modal_title : string;
  modal_components : list TextInput;
  modal_custom_id : string
}.

(** The embed of the [info] command. *)
Record InfoField := mkInfoField {
  info_field_name : string;
  info_field_value : string;
  info_field_inline : bool
}.

Record InfoEmbed := mkInfoEmbed {
  info_title : string;
  info_fields : list InfoField;
  info_footer : string
}.

(** What a command that changes nothing sends, or the exception it
    raises. *)
Inductive Reply (A : Type) :=
| Send (a : A)
| Raise (e : Exception).

Arguments Send {A} a.
Arguments Raise {A} e.

(** ** The extension *)

Module Tags.

(** [view] *)
Definition view (tag_name : string) (s : Store) : Outcome :=
  match Collection.find_one tag_name s with
  | Some (_, tag) => Sent (Content (description tag))
  | None => Raised (BadArgument_NotExist tag_name)
  end.

(** [add_tag] *)
Definition add_tag (ctx : ModalContext) (w : World) (s : Store) : Store * Outcome :=
  let tag_name := tag_name ctx in
  if bool_decide (is_Some (Collection.find_one tag_name s)) then
    (s, Sent (AlreadyExists tag_name))
  else
    match
      Collection.insert (new_id w)
        {| name := tag_name;
           author_id := Str.of_N (author ctx);
           description := tag_description ctx;
           created_at := now w;
           last_edited_at := None |} s
    with
    | None => (s, Raised DuplicateKeyError)
    | Some s' => (s', Sent (NowExists tag_name))
    end.

(** [edit_tag] *)
Definition edit_tag (ctx : ModalContext) (w : World) (s : Store) : Store * Outcome :=
  let tag_id := Str.removeprefix "astro_edit_tag_" (custom_id ctx) in
  match Oid.PydanticObjectId tag_id with
  | None => (s, Raised InvalidId)
  | Some oid =>
      match Collection.get oid s with
      | Some tag =>
          let tag_name := tag_name ctx in
          let original_name := name tag in
          let tag :=
            {| name := tag_name;
               author_id := author_id tag;
               description := tag_description ctx;
               created_at := created_at tag;
               last_edited_at := Some (now w) |} in
          (Collection.save oid tag s,
           Sent (if String.eqb tag_name original_name
                 then Edited tag_name
                 else Renamed original_name tag_name))
      | None => (s, Sent OriginalNotFound)
      end
  end.

(** [modal_tag_handling]: a submitted form goes to [add_tag] or to
    [edit_tag] by its custom id; other forms are not handled here. *)
Definition modal_tag_handling (ctx : ModalContext) (w : World) (s : Store)
  : Store * option Outcome :=
  if String.eqb (custom_id ctx) "astro_new_tag" then
    let r := add_tag ctx w s in (r.1, Some r.2)
  else if Str.startswith "astro_edit_tag" (custom_id ctx) then
    let r := edit_tag ctx w s in (r.1, Some r.2)
  else (s, None).

(** [delete] *)
Definition delete (tag_name : string) (s : Store) : Store * Outcome :=
  match Collection.find_one tag_name s with
  | Some (i, _) => (Collection.delete i s, Sent (Deleted tag_name))
  | None => (s, Raised (BadArgument_NotExist tag_name))
  end.

(** *** Autocomplete *)

Definition choice_of (tag : Tag) : Choice :=
  {| choice_name := name tag; choice_value := name tag |}.

Section Autocomplete.

(** [str.lower] of the Python runtime *)
Variable lower : string -> string.

(** [tag_name.lower() in tag.name.lower()] *)
Definition matches (tag_name : string) (tag : Tag) : bool :=
  Str.contains (lower tag_name) (lower (name tag)).

(** the [async for] loop over the tags still to visit, with the
    choices collected so far *)
Fixpoint autocomplete_loop (tag_name : string) (tags : list Tag)
    (choices : list Choice) : list Choice :=
  match tags with
  | [] => choices
  | tag :: rest =>
      let choices :=
        if matches tag_name tag then choices ++ [choice_of tag] else choices in
      if 25 <=? length choices then choices
      else autocomplete_loop tag_name rest choices
  end.

(** [tag_name_autocomplete] *)
Definition tag_name_autocomplete (tag_name : string) (s : Store) : Outcome :=
  match tag_name with
  | EmptyString =>
      Sent (Choices (choice_of <$> (take 25 (Collection.find_all s)).*2))
  | _ =>
      Sent (Choices (autocomplete_loop tag_name (Collection.find_all s).*2 []))
  end.

End Autocomplete.

(** *** The list display *)

(** the line of the tag at index [i] of the listing *)
Definition entry (i : nat) (t : Tag) : string :=
  "` " +:+ Str.of_nat (i + 1) +:+ " ` " +:+ name t +:+ "`".

Definition tag_list (all_tags : list Tag) : list string := imap entry all_tags.

(** [range(0, n, step)] *)
Definition range (n step : nat) : list nat :=
  (fun k => k * step) <$> seq 0 ((n + step - 1) / step).

(** [l[x:y]] for [0 <= x <= y] *)
Definition slice {A} (x y : nat) (l : list A) : list A := take (y - x) (drop x l).

Definition chunks {A} (l : list A) : list (list A) :=
  (fun x => slice x (x + 10) l) <$> range (length l) 10.

Definition newline : string := String (ascii_of_nat 10) EmptyString.

Definition page (c : list string) : Embed :=
  {| embed_title := "Tag List";
     embed_description := "This is the list of currently existing tags.";
     embed_fields := [ {| field_name := "Names"; field_value := Str.join newline c |} ] |}.

(** [list]: one page is sent as it is, otherwise the pages go to a
    paginator; the paginator reads its first page when it is sent, and
    without pages [pag.send] raises IndexError and nothing is sent. *)
Definition list (s : Store) : Outcome :=
  let all_tags := (Collection.find_all s).*2 in
  let embeds := page <$> chunks (tag_list all_tags) in
  if length embeds =? 1 then Sent (Embeds embeds)
  else
    match embeds with
    | [] => Raised IndexError
    | _ => Sent (Paginator embeds)
    end.

(** *** The commands that open a form, and [info] *)

(** [create]: the form sent by [ctx.send_modal]; the check of
    [utils.helpers_only] comes before and is not part of this file. *)
Definition create : Modal :=
  {| modal_title := "Create new tag";
     modal_components :=
       [ {| input_paragraph := false;
            input_label := "What do you want the tag to be named?";
            input_value := None;
            input_placeholder := "d.py cogs vs. i.py extensions";
            input_custom_id := "tag_name";
            input_min_length := 1;
            input_max_length := 100 |};
         {| input_paragraph := true;
            input_label := "What do you want the tag to include?";
            input_value := None;
            input_placeholder := "(Note: you can also put codeblocks in here!)";
            input_custom_id := "tag_description";
            input_min_length := 1;
            input_max_length := 2000 |} ];
     modal_custom_id := "astro_new_tag" |}.

(** [edit] *)
Definition edit (tag_name : string) (s : Store) : Reply Modal :=
  match Collection.find_one tag_name s with
  | None => Raise (BadArgument_NotExist tag_name)
  | Some (id, tag) =>
      Send
        {| modal_title := "Edit tag";
           modal_components :=
             [ {| input_paragraph := false;
                  input_label := "What do you want the tag to be named?";
                  input_value := Some (name tag);
                  input_placeholder := "d.py cogs vs. i.py extensions";
                  input_custom_id := "tag_name";
                  input_min_length := 1;
                  input_max_length := 100 |};
               {| input_paragraph := true;
                  input_label := "What do you want the tag to include?";
                  input_value := Some (description tag);
                  input_placeholder := "(Note: you can also put codeblocks in here!)";
                  input_custom_id := "tag_description";
                  input_min_length := 1;
                  input_max_length := 2000 |} ];
           modal_custom_id := "astro_edit_tag_" +:+ Oid.str id |}
  end.

Section Info.

(** [naff.Timestamp.fromdatetime(d).format('R')] *)
Variable relative : datetime -> string.

(** [self.view.mention()] *)
Variable view_mention : string.

(** [info] *)
Definition info (tag_name : string) (s : Store) : Reply InfoEmbed :=
  match Collection.find_one tag_name s with
  | None => Raise (BadArgument_NotExist tag_name)
  | Some (_, tag) =>
      Send
        {| info_title := name tag;
           info_fields :=
             [ mkInfoField "Author" ("<@" +:+ author_id tag +:+ ">") true;
               mkInfoField "Timestamps"
                 ("Created at: " +:+ relative (created_at tag) +:+ newline
                  +:+ match last_edited_at tag with
                      | Some e => relative e
                      | None => "N/A"
                      end)
                 true;
               mkInfoField "Content" ("Please use " +:+ view_mention +:+ ".") true ];
           info_footer :=
             "Tags are made and maintained by the Helpers here in the support server. Please contact one if you believe one is incorrect." |}
  end.

End Info.

End Tags.

(** ** Reading a display *)



(** ** Runs of the extension *)

(** The interactions that can change the collection. *)
Inductive Interaction :=
| ModalCompletion (ctx : ModalContext) (w : World)
| DeleteCommand (tag_name : string).

Definition step (c : Interaction) (s : Store) : Store :=
  match c with
  | ModalCompletion ctx w => (Tags.modal_tag_handling ctx w s).1
  | DeleteCommand n => (Tags.delete n s).1
  end.

Definition run (cs : list Interaction) (s : Store) : Store :=
  foldl (fun s c => step c s) s cs.

(** The states of the collection the extension can bring about. *)
Inductive reachable : Store -> Prop :=
| reachable_empty : reachable ∅
| reachable_step c s : reachable s -> reachable (step c s).

(** No two stored tags have the same name. *)
Definition unique_names (s : Store) : Prop :=
  forall i j t u, s !! i = Some t -> s !! j = Some u -> name t = name u -> i = j.

(** [edit_modal_id i] is the custom id the [edit] command gives to the form
    it opens for the tag with id [i]. *)
Definition edit_modal_id (i : ObjectId) : string := "astro_edit_tag_" +:+ Oid.str i.


(** the tag [add_tag] inserts *)
Definition created (ctx : ModalContext) (w : World) : Tag :=
  {| name := tag_name ctx;
     author_id := Str.of_N (author ctx);
     description := tag_description ctx;
     created_at := now w;
     last_edited_at := None |}.

(** the tag [edit_tag] saves in the place of [t] *)
Definition edited (ctx : ModalContext) (w : World) (t : Tag) : Tag :=
  {| name := tag_name ctx;
     author_id := author_id t;
     description := tag_description ctx;
     created_at := created_at t;
     last_edited_at := Some (now w) |}.

(** the message [edit_tag] sends after saving in the place of [t] *)
Definition edit_message (ctx : ModalContext) (t : Tag) : Message :=
  if String.eqb (tag_name ctx) (name t)
  then Edited (tag_name ctx)
  else Renamed (name t) (tag_name ctx).

(** ** The index on names *)

Module Indexed.

Section Index.

(** The part of the declaration of [Tag] (common.models) that says
    whether the collection has a unique index on [name]; the
    declaration is not part of the sources read here, so it is taken
    as a parameter.  The spec gives the storage engine this uniqueness
    constraint (its sections 5 and 6): that is [unique_index = true]. *)
Variable unique_index : bool.

(** another document than the one with id [i] has the name [n] *)
Definition taken (i : ObjectId) (n : string) (s : Store) : bool :=
  existsb (fun d => Collection.named n d && negb (N.eqb d.1 i)) (Collection.find_all s).

(** Modelled from the spec: [tag.insert()] on a collection whose
    declaration, which is missing, may put the unique index on [name]:
    with the index, a name another document has is refused with
    DuplicateKeyError and nothing is written. *)
Definition insert (i : ObjectId) (t : Tag) (s : Store) : option Store :=
  if unique_index && taken i (name t) s then None else Collection.insert i t s.

(** Modelled from the spec: [tag.save()] on a collection whose
    declaration, which is missing, may put the unique index on [name]:
    with the index, a name another document has is refused with
    DuplicateKeyError and nothing is written. *)
Definition save (i : ObjectId) (t : Tag) (s : Store) : option Store :=
  if unique_index && taken i (name t) s then None else Some (Collection.save i t s).

(** [add_tag] *)
Definition add_tag (ctx : ModalContext) (w : World) (s : Store) : Store * Outcome :=
  let tag_name := tag_name ctx in
  if bool_decide (is_Some (Collection.find_one tag_name s)) then
    (s, Sent (AlreadyExists tag_name))
  else
    match
      insert (new_id w)
        {| name := tag_name;
           author_id := Str.of_N (author ctx);
           description := tag_description ctx;
           created_at := now w;
           last_edited_at := None |} s
    with
    | None => (s, Raised DuplicateKeyError)
    | Some s' => (s', Sent (NowExists tag_name))
    end.

(** [edit_tag] *)
Definition edit_tag (ctx : ModalContext) (w : World) (s : Store) : Store * Outcome :=
  let tag_id := Str.removeprefix "astro_edit_tag_" (custom_id ctx) in
  match Oid.PydanticObjectId tag_id with
  | None => (s, Raised InvalidId)
  | Some oid =>
      match Collection.get oid s with
      | Some tag =>
          let tag_name := tag_name ctx in
          let original_name := name tag in
          let tag :=
            {| name := tag_name;
               author_id := author_id tag;
               description := tag_description ctx;
               created_at := created_at tag;
               last_edited_at := Some (now w) |} in
          match save oid tag s with
          | None => (s, Raised DuplicateKeyError)
          | Some s' =>
              (s',
               Sent (if String.eqb tag_name original_name
                     then Edited tag_name
                     else Renamed original_name tag_name))
          end
      | None => (s, Sent OriginalNotFound)
      end
  end.

(** [modal_tag_handling] *)
Definition modal_tag_handling (ctx : ModalContext) (w : World) (s : Store)
  : Store * option Outcome :=
  if String.eqb (custom_id ctx) "astro_new_tag" then
    let r := add_tag ctx w s in (r.1, Some r.2)
  else if Str.startswith "astro_edit_tag" (custom_id ctx) then
    let r := edit_tag ctx w s in (r.1, Some r.2)
  else (s, None).

Definition step (c : Interaction) (s : Store) : Store :=
  match c with
  | ModalCompletion ctx w => (modal_tag_handling ctx w s).1
  | DeleteCommand n => (Tags.delete n s).1
  end.

(** The states of the collection the extension can bring about. *)
Inductive reachable : Store -> Prop :=
| reachable_empty : reachable ∅
| reachable_step c s : reachable s -> reachable (step c s).

End Index.

End Indexed.

(** ** Submitted forms *)

(** The text a submitted form holds for the input with custom id [id]:
    [ctx.responses[id]]. *)
Definition response (ctx : ModalContext) (id : string) : option string :=
  if String.eqb id "tag_name" then Some (tag_name ctx)
  else if String.eqb id "tag_description" then Some (tag_description ctx)
  else None.

Definition within (inp : TextInput) (x : string) : bool :=
  (input_min_length inp <=? String.length x)
  && (String.length x <=? input_max_length inp).

(** [submitted m ctx]: [ctx] is a submission of the form [m]: it has the
    custom id of [m] and, for each input of [m], a text within the
    bounds of the input. *)
Definition submitted (m : Modal) (ctx : ModalContext) : bool :=
  String.eqb (custom_id ctx) (modal_custom_id m)
  && forallb
       (fun inp =>
          match response ctx (input_custom_id inp) with
          | Some x => within inp x
          | None => false
          end)
       (modal_components m).

(** The modal completions of a run are submissions of forms the
    extension has opened: the form of [create], or a form of [edit]. *)
Definition opened (m : Modal) : Prop :=
  m = Tags.create \/ exists n s, Tags.edit n s = Send m.

Definition from_forms (c : Interaction) : Prop :=
  match c with
  | ModalCompletion ctx _ => exists m, opened m /\ submitted m ctx = true
  | DeleteCommand _ => True
  end.

(** The interactions that are not handed to [edit_tag]. *)
Definition no_edit (c : Interaction) : bool :=
  match c with
  | ModalCompletion ctx _ =>
      String.eqb (custom_id ctx) "astro_new_tag"
      || negb (Str.startswith "astro_edit_tag" (custom_id ctx))
  | DeleteCommand _ => true
  end.

(** The texts a stored tag may hold by the bounds of the forms. *)
Definition bounded (t : Tag) : Prop :=
  1 <= String.length (name t) <= 100
  /\ 1 <= String.length (description t) <= 2000.

(** ** Sample runs *)

Module Sample.

Definition new_a : ModalContext := mkModal "astro_new_tag" "a" "first" 7.
Definition new_b : ModalContext := mkModal "astro_new_tag" "b" "second" 7.
Definition b_to_a : ModalContext := mkModal (edit_modal_id 2) "a" "second" 8.

(** two tags, [a] with id 1 and [b] with id 2 *)
Definition two_tags : Store :=
  run [ModalCompletion new_a (mkWorld 10 1); ModalCompletion new_b (mkWorld 20 2)] ∅.

(** the tag [b] of [two_tags] edited and given the name [a] *)
Definition same_name : Store :=
  run [ModalCompletion b_to_a (mkWorld 30 3)] two_tags.

(** a later moment, and an id not yet in use *)
Definition later : World := mkWorld 40 4.

Definition dpy : Store :=
  <[1%N := mkTag "d.py cogs" "7" "cogs" 10 None]>
    (<[2%N := mkTag "other" "7" "else" 20 None]> ∅).

End Sample.

(** ** More sample inputs *)

Module Cases.

(** the form of [edit] for the tag [b] of [Sample.two_tags] *)
Definition edit_b_form : Modal :=
  match Tags.edit "b" Sample.two_tags with
  | Send m => m
  | Raise _ => Tags.create
  end.

(** submissions of that form: with the shown texts, and with a new name *)
Definition b_unchanged : ModalContext := mkModal (edit_modal_id 2) "b" "second" 8.
Definition b_to_c : ModalContext := mkModal (edit_modal_id 2) "c" "changed" 8.

Definition new_c : ModalContext := mkModal "astro_new_tag" "c" "third" 9.
Definition a_again : ModalContext := mkModal "astro_new_tag" "a" "again" 9.

(** a custom id that starts like the one of an edit form *)
Definition no_id : ModalContext := mkModal "astro_edit_tag" "a" "first" 7.

Definition create_delete : list Interaction :=
  [ModalCompletion Sample.new_a (mkWorld 10 1);
   ModalCompletion Sample.new_b (mkWorld 20 2);
   DeleteCommand "a"].

Definition create_edit : list Interaction :=
  [ModalCompletion Sample.new_a (mkWorld 10 1);
   ModalCompletion Sample.new_b (mkWorld 20 2);
   ModalCompletion b_to_c (mkWorld 30 3)].

Definition relative (d : Z) : string := "<t:" +:+ Str.of_N (Z.to_N d) +:+ ":R>".

End Cases.

(** * Properties *)

(** ** Strings and object ids *)

Section StrFacts.

Lemma startswith_app (p x : string) : Str.startswith p (p +:+ x) = true.
Proof.
  induction p as [|a p IH]; simpl; [done|].
  by rewrite Ascii.eqb_refl.
Qed.

Lemma drop_app (p x : string) : Str.drop (String.length p) (p +:+ x) = x.
Proof. induction p as [|a p IH]; simpl; [by destruct x | done]. Qed.

Lemma removeprefix_app (p x : string) : Str.removeprefix p (p +:+ x) = x.
Proof. unfold Str.removeprefix. by rewrite startswith_app, drop_app. Qed.

End StrFacts.

Section OidFacts.

Local Open Scope N_scope.

Lemma hex_value_digit (d : N) : d < 16 -> Oid.hex_value (Oid.hex_digit d) = Some d.
Proof.
  intros Hd.
  assert (Hcases : Forall (fun k => d = k -> Oid.hex_value (Oid.hex_digit d) = Some d)
                     (N.of_nat <$> seq 0 16)).
  { repeat constructor; intros ->; reflexivity. }
  rewrite Forall_forall in Hcases. apply (Hcases d); [|done].
  apply list_elem_of_fmap. exists (N.to_nat d). split; [lia|].
  apply elem_of_seq. lia.
Qed.

Lemma length_hex (k : nat) (n : N) (rest : string) :
  String.length (Oid.hex k n rest) = (k + String.length rest)%nat.
Proof.
  revert n rest. induction k as [|k IH]; intros n rest; simpl; [done|].
  rewrite IH. simpl. lia.
Qed.

Lemma is_space_digit (d : N) : d < 16 -> Oid.is_space (Oid.hex_digit d) = false.
Proof.
  intros Hd.
  assert (Hcases : Forall (fun k => d = k -> Oid.is_space (Oid.hex_digit d) = false)
                     (N.of_nat <$> seq 0 16)).
  { repeat constructor; intros ->; reflexivity. }
  rewrite Forall_forall in Hcases. apply (Hcases d); [|done].
  apply list_elem_of_fmap. exists (N.to_nat d). split; [lia|].
  apply elem_of_seq. lia.
Qed.

Lemma length_be_bytes (k : nat) (n : N) : length (Oid.be_bytes k n) = k.
Proof.
  revert n. induction k as [|k IH]; intros n; simpl; [done|].
  rewrite length_app, IH. simpl. lia.
Qed.

Lemma unbytes_be_bytes (k : nat) (n acc : N) :
  Oid.unbytes acc (Oid.be_bytes k n) = acc * 256 ^ N.of_nat k + n mod 256 ^ N.of_nat k.
Proof.
  revert n. induction k as [|k IH]; intros n.
  - simpl. rewrite N.mod_1_r. lia.
  - cbn [Oid.be_bytes]. unfold Oid.unbytes in *. rewrite fold_left_app, IH. cbn [fold_left].
    rewrite Nat2N.inj_succ, N.pow_succ_r'.
    rewrite (N.Div0.mod_mul_r n 256). lia.
Qed.

Lemma fromhex_hex (k : nat) (n : N) (rest : string) :
  Oid.fromhex (Oid.hex (2 * k) n rest) = app (Oid.be_bytes k n) <$> Oid.fromhex rest.
Proof.
  revert n rest. induction k as [|k IH]; intros n rest.
  - simpl. by destruct (Oid.fromhex rest).
  - replace (2 * S k)%nat with (S (S (2 * k))) by lia. cbn [Oid.hex].
    rewrite N.Div0.div_div. change (16 * 16) with 256. rewrite IH.
    cbn [Oid.fromhex].
    rewrite is_space_digit by (apply N.mod_lt; lia).
    rewrite !hex_value_digit by (apply N.mod_lt; lia).
    replace (16 * ((n / 16) mod 16) + n mod 16) with (n mod 256).
    2:{ change 256 with (16 * 16). rewrite (N.Div0.mod_mul_r n 16 16). lia. }
    destruct (Oid.fromhex rest) as [bs|]; simpl; [|done].
    by rewrite <- app_assoc.
Qed.

(** Reading back the written form of an id gives the id. *)
Lemma PydanticObjectId_str (i : N) : Oid.valid i -> Oid.PydanticObjectId (Oid.str i) = Some i.
Proof.
  unfold Oid.valid, Oid.PydanticObjectId, Oid.str. intros Hi.
  rewrite length_hex. simpl Nat.eqb. cbv iota.
  change 24%nat with (2 * 12)%nat at 1.
  rewrite (fromhex_hex 12 i EmptyString). cbn [Oid.fromhex fmap option_fmap option_map].
  rewrite app_nil_r. unfold Oid.of_bytes.
  rewrite length_be_bytes, unbytes_be_bytes. f_equal.
  rewrite Nat.sub_diag, N.mul_0_l, N.mul_0_l, !N.add_0_l. apply N.mod_small.
  replace (256 ^ N.of_nat 12) with (2 ^ 96) by reflexivity. done.
Qed.

End OidFacts.

(** ** The collection *)

Section CollectionFacts.

Implicit Types (s : gmap N Tag) (n : string) (i j : N) (t : Tag).

Lemma find_all_Permutation s : Collection.find_all s ≡ₚ map_to_list s.
Proof. apply merge_sort_Permutation. Qed.

Lemma elem_of_find_all s i t : (i, t) ∈ Collection.find_all s <-> s !! i = Some t.
Proof. rewrite find_all_Permutation. apply elem_of_map_to_list. Qed.


Lemma length_find_all s : length (Collection.find_all s) = size s.
Proof. rewrite find_all_Permutation. apply length_map_to_list. Qed.


(** The listing is by ascending id. *)
Lemma find_all_sorted s : StronglySorted Collection.by_id (Collection.find_all s).
Proof.
  unfold Collection.find_all.
  assert (Transitive Collection.by_id) by (intros x y z; unfold Collection.by_id; lia).
  assert (Total Collection.by_id) by (intros x y; unfold Collection.by_id; lia).
  by apply StronglySorted_merge_sort.
Qed.

Lemma head_filter_Some {A} (f : A -> bool) (l : list A) (x : A) :
  head (List.filter f l) = Some x -> x ∈ l /\ f x = true.
Proof.
  intros H. assert (Hin : In x (List.filter f l)).
  { destruct (List.filter f l); simplify_eq/=. by left. }
  apply filter_In in Hin as [Hin Hf]. by rewrite list_elem_of_In.
Qed.

Lemma head_filter_None {A} (f : A -> bool) (l : list A) :
  head (List.filter f l) = None <-> forall x, x ∈ l -> f x = false.
Proof.
  split.
  - intros H x Hx. destruct (f x) eqn:Hf; [|done].
    assert (Hin : In x (List.filter f l)) by (apply filter_In; by rewrite <- list_elem_of_In).
    destruct (List.filter f l); [done | discriminate].
  - intros H. destruct (List.filter f l) as [|x l'] eqn:E; [done|].
    assert (Hin : In x (List.filter f l)) by (rewrite E; by left).
    apply filter_In in Hin as [Hin Hf]. rewrite <- list_elem_of_In in Hin.
    rewrite (H x Hin) in Hf. discriminate.
Qed.

Lemma named_true n i t : Collection.named n (i, t) = true <-> name t = n.
Proof. unfold Collection.named. simpl. apply String.eqb_eq. Qed.

Lemma find_one_Some n s i t :
  Collection.find_one n s = Some (i, t) -> s !! i = Some t /\ name t = n.
Proof.
  intros H. apply head_filter_Some in H as [Hin Hn].
  apply elem_of_find_all in Hin. by apply named_true in Hn.
Qed.

Lemma find_one_None n s :
  Collection.find_one n s = None <-> forall i t, s !! i = Some t -> name t <> n.
Proof.
  unfold Collection.find_one. rewrite head_filter_None. split.
  - intros H i t Hi Hn. apply elem_of_find_all in Hi.
    apply H in Hi. apply (proj2 (named_true n i t)) in Hn. congruence.
  - intros H [i t] Hi. apply elem_of_find_all in Hi.
    destruct (Collection.named n (i, t)) eqn:E; [|done].
    apply named_true in E. by apply H in Hi.
Qed.

Lemma find_one_is_Some n s :
  is_Some (Collection.find_one n s) <-> exists i t, s !! i = Some t /\ name t = n.
Proof.
  split.
  - intros [[i t] H]. exists i, t. by apply find_one_Some.
  - intros (i & t & Hi & Hn). destruct (Collection.find_one n s) eqn:E; [done|].
    rewrite find_one_None in E. by apply E in Hi.
Qed.

(** Where one stored tag only is named [n], [find_one] returns it. *)
Lemma find_one_unique n s i t :
  s !! i = Some t -> name t = n ->
  (forall j u, s !! j = Some u -> name u = n -> j = i) ->
  Collection.find_one n s = Some (i, t).
Proof.
  intros Hi Hn Huniq.
  destruct (Collection.find_one n s) as [[j u]|] eqn:E.
  - apply find_one_Some in E as [Hj Hu].
    assert (j = i) as -> by eauto. congruence.
  - rewrite find_one_None in E. by apply E in Hi.
Qed.

End CollectionFacts.

(** ** The handlers, case by case *)

Section HandlerFacts.

Implicit Types (s : gmap N Tag) (n : string) (i j : N) (t : Tag)
  (ctx : ModalContext) (w : World).

Lemma add_tag_taken ctx w s :
  is_Some (Collection.find_one (tag_name ctx) s) ->
  Tags.add_tag ctx w s = (s, Sent (AlreadyExists (tag_name ctx))).
Proof. intros H. unfold Tags.add_tag. by rewrite bool_decide_eq_true_2. Qed.

Lemma add_tag_free ctx w s :
  Collection.find_one (tag_name ctx) s = None ->
  Tags.add_tag ctx w s
  = match s !! new_id w with
    | Some _ => (s, Raised DuplicateKeyError)
    | None => (<[new_id w := created ctx w]> s, Sent (NowExists (tag_name ctx)))
    end.
Proof.
  intros H. unfold Tags.add_tag, Collection.insert.
  rewrite bool_decide_eq_false_2 by (rewrite H; by intros [? ?]).
  by destruct (s !! new_id w).
Qed.

Lemma edit_tag_id ctx w s i :
  Oid.valid i -> custom_id ctx = edit_modal_id i ->
  Tags.edit_tag ctx w s
  = match s !! i with
    | Some t => (<[i := edited ctx w t]> s, Sent (edit_message ctx t))
    | None => (s, Sent OriginalNotFound)
    end.
Proof.
  intros Hi Hc. unfold Tags.edit_tag, edit_modal_id in *.
  rewrite Hc, removeprefix_app, PydanticObjectId_str by done.
  unfold Collection.get. by destruct (s !! i).
Qed.

Lemma delete_found n s i t :
  Collection.find_one n s = Some (i, t) ->
  Tags.delete n s = (base.delete i s, Sent (Deleted n)).
Proof. intros H. unfold Tags.delete. by rewrite H. Qed.

Lemma delete_missing n s :
  Collection.find_one n s = None ->
  Tags.delete n s = (s, Raised (BadArgument_NotExist n)).
Proof. intros H. unfold Tags.delete. by rewrite H. Qed.

End HandlerFacts.

(** ** The model at sample inputs *)

Example str_two : Oid.str 2 = "000000000000000000000002".
Proof. reflexivity. Qed.

Example PydanticObjectId_upper :
  Oid.PydanticObjectId "00000000000000000000AbCd" = Some 43981%N.
Proof. reflexivity. Qed.

Example PydanticObjectId_short : Oid.PydanticObjectId "abcd" = None.
Proof. reflexivity. Qed.

Example PydanticObjectId_spaces :
  Oid.PydanticObjectId "00 00 00 00 00 00 00 02 " = Some (4 * 2 ^ 96 + 2)%N.
Proof. reflexivity. Qed.

Example PydanticObjectId_half_byte :
  Oid.PydanticObjectId "0000000000000000000000 2" = None.
Proof. reflexivity. Qed.

Example edit_tag_spaces :
  Tags.edit_tag (mkModal "astro_edit_tag_00 00 00 00 00 00 00 02 " "a" "first" 7)
    Sample.later Sample.two_tags
  = (Sample.two_tags, Sent OriginalNotFound).
Proof. reflexivity. Qed.

Example view_a : Tags.view "a" Sample.two_tags = Sent (Content "first").
Proof. reflexivity. Qed.

Example view_c : Tags.view "c" Sample.two_tags = Raised (BadArgument_NotExist "c").
Proof. reflexivity. Qed.

Example chunks_25 : length <$> Tags.chunks (seq 0 25) = [10; 10; 5].
Proof. reflexivity. Qed.

Example chunks_20 : length <$> Tags.chunks (seq 0 20) = [10; 10].
Proof. reflexivity. Qed.

Example chunks_0 : Tags.chunks (@nil nat) = [].
Proof. reflexivity. Qed.

Example list_two_tags :
  Tags.list Sample.two_tags
  = Sent (Embeds [Tags.page ["` 1 ` a`"; "` 2 ` b`"]]).
Proof. reflexivity. Qed.

Example delete_first_of_same_name :
  Tags.delete "a" Sample.same_name
  = (base.delete 1%N Sample.same_name, Sent (Deleted "a")).
Proof. reflexivity. Qed.

Example list_empty : Tags.list ∅ = Raised IndexError.
Proof. reflexivity. Qed.

(** ** Creating *)

Section Create.

Implicit Types (s : gmap N Tag) (ctx : ModalContext) (w : World).

(** C1: where a tag with the submitted name already exists, [add_tag]
    answers that the tag already exists and inserts nothing: the
    collection after the call is the collection before it. *)
Theorem add_tag_already_exists ctx w s :
  (exists i t, s !! i = Some t /\ name t = tag_name ctx) ->
  Tags.add_tag ctx w s = (s, Sent (AlreadyExists (tag_name ctx))).
Proof. intros H. apply add_tag_taken. by apply find_one_is_Some. Qed.

(** C3: where no tag has the submitted name, [add_tag] succeeds as soon
    as the driver's id is new, and after a successful [add_tag] the
    lookup by that exact name returns the created tag, with the
    submitted name and description; [view] sends that description. *)
Theorem add_tag_then_find ctx w s :
  (forall i t, s !! i = Some t -> name t <> tag_name ctx) ->
  (s !! new_id w = None ->
     (Tags.add_tag ctx w s).2 = Sent (NowExists (tag_name ctx)))
  /\ ((Tags.add_tag ctx w s).2 = Sent (NowExists (tag_name ctx)) ->
      exists i t,
        Collection.find_one (tag_name ctx) (Tags.add_tag ctx w s).1 = Some (i, t)
        /\ name t = tag_name ctx
        /\ description t = tag_description ctx
        /\ author_id t = Str.of_N (author ctx)
        /\ Tags.view (tag_name ctx) (Tags.add_tag ctx w s).1
           = Sent (Content (tag_description ctx))).
Proof.
  intros Hfree. apply find_one_None in Hfree as Hnone.
  rewrite add_tag_free by done.
  destruct (s !! new_id w) eqn:Hid; simpl; (split; [done|]); [done|].
  intros _. exists (new_id w), (created ctx w).
  assert (Hfind : Collection.find_one (tag_name ctx) (<[new_id w := created ctx w]> s)
                  = Some (new_id w, created ctx w)).
  { apply find_one_unique; [apply lookup_insert_eq | done |].
    intros j u Hj Hu. destruct (decide (j = new_id w)) as [|Hne]; [done|].
    rewrite lookup_insert_ne in Hj by done. by apply Hfree in Hj. }
  repeat split; [done|]. unfold Tags.view. by rewrite Hfind.
Qed.

End Create.

(** ** Editing *)

Section Edit.

Implicit Types (s : gmap N Tag) (i j : N) (t : Tag) (ctx : ModalContext) (w : World).

(** C4: the form of the edit command carries the id [i] of the tag.
    Where no stored tag has that id, [edit_tag] answers that the
    original tag could not be found and leaves the collection as it
    is; where a tag has it, [edit_tag] answers that the tag has been
    edited, and the stored tag has the current time as
    [last_edited_at]. *)
Theorem edit_tag_not_found_or_saved ctx w s i :
  Oid.valid i -> custom_id ctx = edit_modal_id i ->
  (s !! i = None -> Tags.edit_tag ctx w s = (s, Sent OriginalNotFound))
  /\ (forall t, s !! i = Some t ->
        ((Tags.edit_tag ctx w s).2 = Sent (Edited (tag_name ctx))
         \/ (Tags.edit_tag ctx w s).2 = Sent (Renamed (name t) (tag_name ctx)))
        /\ exists t', (Tags.edit_tag ctx w s).1 !! i = Some t'
                      /\ last_edited_at t' = Some (now w)).
Proof.
  intros Hi Hc. rewrite (edit_tag_id ctx w s i) by done. split.
  - by intros ->.
  - intros t ->. simpl. split.
    + unfold edit_message. destruct (String.eqb _ _); auto.
    + exists (edited ctx w t). by rewrite lookup_insert_eq.
Qed.

(** C5: an edit of the tag with id [i] leaves its id, [created_at] and
    [author_id] as they were, and every other stored tag as it was:
    the tags with another id are the same before and after, and no id
    is added or removed. *)
Theorem edit_tag_frame ctx w s i t :
  Oid.valid i -> custom_id ctx = edit_modal_id i -> s !! i = Some t ->
  (exists t', (Tags.edit_tag ctx w s).1 !! i = Some t'
              /\ created_at t' = created_at t
              /\ author_id t' = author_id t)
  /\ (forall j, j <> i -> (Tags.edit_tag ctx w s).1 !! j = s !! j)
  /\ dom (Tags.edit_tag ctx w s).1 = dom s.
Proof.
  intros Hi Hc Ht. rewrite (edit_tag_id ctx w s i), Ht by done. simpl.
  split; [|split].
  - exists (edited ctx w t). by rewrite lookup_insert_eq.
  - intros j Hj. by rewrite lookup_insert_ne.
  - by apply dom_insert_lookup_L.
Qed.

(** C10: an edit of the tag with id [i] stores exactly the submitted
    name and the submitted description, whether or not they differ
    from the old ones; no field of the form is skipped. *)
Theorem edit_tag_overwrites ctx w s i t :
  Oid.valid i -> custom_id ctx = edit_modal_id i -> s !! i = Some t ->
  exists t', (Tags.edit_tag ctx w s).1 !! i = Some t'
             /\ name t' = tag_name ctx
             /\ description t' = tag_description ctx.
Proof.
  intros Hi Hc Ht. rewrite (edit_tag_id ctx w s i), Ht by done. simpl.
  exists (edited ctx w t). by rewrite lookup_insert_eq.
Qed.

(** The form the edit command opens is handed to [edit_tag]. *)
Lemma modal_tag_handling_edit ctx w s i :
  custom_id ctx = edit_modal_id i ->
  Tags.modal_tag_handling ctx w s
  = ((Tags.edit_tag ctx w s).1, Some (Tags.edit_tag ctx w s).2).
Proof. intros Hc. unfold Tags.modal_tag_handling. by rewrite Hc. Qed.

(** A custom id that starts like the one of the edit form and carries
    no id is handed to [edit_tag] as well, which raises on it. *)
Lemma modal_tag_handling_invalid_id ctx w s :
  custom_id ctx = "astro_edit_tag" ->
  Tags.modal_tag_handling ctx w s = (s, Some (Raised InvalidId)).
Proof.
  intros Hc. unfold Tags.modal_tag_handling, Tags.edit_tag. by rewrite Hc.
Qed.

End Edit.

(** ** Deleting *)

Section Delete.

Implicit Types (s : gmap N Tag) (n : string) (i j : N) (t : Tag).

(** C7: [delete] of a name some stored tag has reports the deletion
    and removes one record with that name, every other record staying
    as it was; [delete] of a name no stored tag has raises the
    does-not-exist error and leaves the collection as it is. *)
Theorem delete_reports n s :
  ((exists i t, s !! i = Some t /\ name t = n) ->
     exists i t, s !! i = Some t /\ name t = n
       /\ Tags.delete n s = (base.delete i s, Sent (Deleted n))
       /\ (Tags.delete n s).1 !! i = None
       /\ (forall j, j <> i -> (Tags.delete n s).1 !! j = s !! j)
       /\ S (size (Tags.delete n s).1) = size s)
  /\ ((forall i t, s !! i = Some t -> name t <> n) ->
      Tags.delete n s = (s, Raised (BadArgument_NotExist n))).
Proof.
  split.
  - intros H. apply find_one_is_Some in H as [[i t] Hf].
    apply find_one_Some in Hf as Hit. destruct Hit as [Hi Hn].
    exists i, t. rewrite (delete_found n s i t) by done. simpl.
    repeat split; try done.
    + apply lookup_delete_eq.
    + intros j Hj. by apply lookup_delete_ne.
    + rewrite map_size_delete, Hi. apply elem_of_dom_2, elem_of_dom in Hi.
      assert (size s <> 0) by (intros ->%map_size_empty_inv; by destruct Hi).
      lia.
  - intros H. apply delete_missing. by apply find_one_None.
Qed.

(** C6: in a collection that holds the tag named [n], one tag having
    that name, the deletion of [n] succeeds and removes this tag, and
    after it the lookup of [n] by exact name returns nothing: [view] of
    [n] says that the tag does not exist. *)
Theorem delete_then_find n s i t :
  s !! i = Some t -> name t = n ->
  (forall j u, s !! j = Some u -> name u = n -> j = i) ->
  Tags.delete n s = (base.delete i s, Sent (Deleted n))
  /\ Collection.find_one n (Tags.delete n s).1 = None
  /\ Tags.view n (Tags.delete n s).1 = Raised (BadArgument_NotExist n).
Proof.
  intros Hi Hn Hone.
  rewrite (delete_found n s i t) by by apply find_one_unique.
  assert (Hnone : Collection.find_one n (base.delete i s) = None).
  { apply find_one_None. intros j u Hj Hnu.
    apply lookup_delete_Some in Hj as [Hne Hj]. apply Hne. symmetry. eauto. }
  split; [done|]. split; [done|]. unfold Tags.view. simpl. by rewrite Hnone.
Qed.

End Delete.

(** ** Uniqueness of names *)

Section Unique.

Implicit Types (s : gmap N Tag) (n : string) (i j : N) (t : Tag)
  (ctx : ModalContext) (w : World).

Lemma unique_names_empty : unique_names ∅.
Proof. intros i j t u Hi. by rewrite lookup_empty in Hi. Qed.

(** [add_tag] keeps names unique: it looks the name up first. *)
Lemma add_tag_unique_names ctx w s :
  unique_names s -> unique_names (Tags.add_tag ctx w s).1.
Proof.
  intros Hu. destruct (Collection.find_one (tag_name ctx) s) eqn:Hf.
  - by rewrite add_tag_taken.
  - rewrite add_tag_free by done. rewrite find_one_None in Hf.
    destruct (s !! new_id w) as [t0|] eqn:Hid; simpl; [done|].
    intros i j t u Hi Hj Hn.
    destruct (decide (i = new_id w)) as [->|Hi'], (decide (j = new_id w)) as [->|Hj'];
      [done| | |].
    + rewrite lookup_insert_eq in Hi. rewrite lookup_insert_ne in Hj by done.
      injection Hi as <-. apply Hf in Hj. simpl in Hn. congruence.
    + rewrite lookup_insert_eq in Hj. rewrite lookup_insert_ne in Hi by done.
      injection Hj as <-. apply Hf in Hi. simpl in Hn. congruence.
    + rewrite lookup_insert_ne in Hi, Hj by done. eauto.
Qed.

(** [delete] keeps names unique. *)
Lemma delete_unique_names n s :
  unique_names s -> unique_names (Tags.delete n s).1.
Proof.
  intros Hu. unfold Tags.delete, Collection.delete.
  destruct (Collection.find_one n s) as [[k t0]|]; simpl; [|done].
  intros i j t u Hi Hj. apply lookup_delete_Some in Hi as [_ Hi].
  apply lookup_delete_Some in Hj as [_ Hj]. eauto.
Qed.

(** [edit_tag] keeps names unique where no other tag has the submitted
    name; it does not look the name up. *)
Lemma edit_tag_unique_names ctx w s i :
  Oid.valid i -> custom_id ctx = edit_modal_id i ->
  (forall j u, s !! j = Some u -> name u = tag_name ctx -> j = i) ->
  unique_names s -> unique_names (Tags.edit_tag ctx w s).1.
Proof.
  intros Hv Hc Hfree Hu. rewrite (edit_tag_id ctx w s i) by done.
  destruct (s !! i) as [t0|] eqn:Ht; simpl; [|done].
  intros j k t u Hj Hk Hn.
  destruct (decide (j = i)) as [->|Hj'], (decide (k = i)) as [->|Hk']; [done| | |].
  - rewrite lookup_insert_eq in Hj. rewrite lookup_insert_ne in Hk by done.
    injection Hj as <-. simpl in Hn. symmetry. eauto.
  - rewrite lookup_insert_eq in Hk. rewrite lookup_insert_ne in Hj by done.
    injection Hk as <-. simpl in Hn. eauto.
  - rewrite lookup_insert_ne in Hj, Hk by done. eauto.
Qed.

Lemma reachable_run cs s : reachable s -> reachable (run cs s).
Proof.
  revert s. induction cs as [|c cs IH]; intros s Hs; [done|].
  apply IH. by constructor.
Qed.

(** On a collection without an index on the names: the run that creates
    [a], creates [b] and then edits [b] with the name [a] submitted.
    Before the edit the two names differ; [edit_tag] saves the
    submitted name without looking it up and answers that the tag has
    been re-named; after it the two stored tags have the same name. *)
Lemma edit_tag_same_name :
  reachable Sample.two_tags /\ unique_names Sample.two_tags
  /\ Tags.edit_tag Sample.b_to_a (mkWorld 30 3) Sample.two_tags
     = (Sample.same_name, Sent (Renamed "b" "a"))
  /\ reachable Sample.same_name
  /\ (exists t u, Sample.same_name !! 1%N = Some t /\ Sample.same_name !! 2%N = Some u
                  /\ name t = name u)
  /\ ~ unique_names Sample.same_name.
Proof.
  assert (H2 : reachable Sample.two_tags) by apply reachable_run, reachable_empty.
  split; [done|]. split.
  { apply (add_tag_unique_names Sample.new_b (mkWorld 20 2)
             (run [ModalCompletion Sample.new_a (mkWorld 10 1)] ∅)).
    apply (add_tag_unique_names Sample.new_a (mkWorld 10 1) ∅), unique_names_empty. }
  split; [by vm_compute|]. split; [by apply reachable_run|].
  split.
  - eexists _, _. by vm_compute.
  - intros Hu. by specialize (Hu 1%N 2%N _ _ eq_refl eq_refl eq_refl).
Qed.

(** Where two tags have the name, as in [Sample.same_name], the
    deletion removes one of them and the lookup still returns the
    other. *)
Lemma delete_then_find_same_name :
  ~ (forall n s s',
       (exists i t, s !! i = Some t /\ name t = n) ->
       Tags.delete n s = (s', Sent (Deleted n)) ->
       Collection.find_one n s' = None).
Proof.
  intros H.
  specialize (H "a" Sample.same_name (Tags.delete "a" Sample.same_name).1).
  assert (Hf : Collection.find_one "a" (Tags.delete "a" Sample.same_name).1 <> None)
    by (by vm_compute).
  apply Hf, H; [|by vm_compute].
  eexists 1%N, _. by vm_compute.
Qed.

(** *** With the index on the names *)

Lemma taken_false i n s :
  Indexed.taken i n s = false <-> forall j u, s !! j = Some u -> name u = n -> j = i.
Proof.
  unfold Indexed.taken. split.
  - intros H j u Hj Hn. destruct (decide (j = i)) as [|Hne]; [done|].
    assert (Ht : existsb (fun d => Collection.named n d && negb (N.eqb d.1 i))
                   (Collection.find_all s) = true); [|congruence].
    apply existsb_exists. exists (j, u). split.
    + apply list_elem_of_In. by apply elem_of_find_all.
    + simpl. rewrite (proj2 (named_true n j u) Hn). simpl.
      apply negb_true_iff. by apply N.eqb_neq.
  - intros H. destruct (existsb _ _) eqn:E; [|done].
    apply existsb_exists in E as ([j u] & Hin & Hc).
    apply list_elem_of_In, elem_of_find_all in Hin.
    apply andb_true_iff in Hc as [Hn Hne]. apply named_true in Hn.
    apply negb_true_iff, N.eqb_neq in Hne. simpl in Hne. by apply (H j u) in Hin.
Qed.

(** [add_tag] looks the name up itself: the index never refuses its
    insertion, and it does the same with and without it. *)
Lemma indexed_add_tag b ctx w s : Indexed.add_tag b ctx w s = Tags.add_tag ctx w s.
Proof.
  unfold Indexed.add_tag, Tags.add_tag, Indexed.insert.
  case_bool_decide as Hf; [done|].
  assert (Hfree : Indexed.taken (new_id w) (tag_name ctx) s = false).
  { apply taken_false. intros j u Hj Hn. exfalso. apply Hf.
    apply find_one_is_Some. by exists j, u. }
  simpl. by rewrite Hfree, andb_false_r.
Qed.

(** Without the index the handlers are the ones of [Tags]. *)
Lemma indexed_false_edit_tag ctx w s : Indexed.edit_tag false ctx w s = Tags.edit_tag ctx w s.
Proof.
  unfold Indexed.edit_tag, Tags.edit_tag, Indexed.save.
  destruct (Oid.PydanticObjectId _) as [i|]; [|done].
  by destruct (Collection.get i s).
Qed.

Lemma indexed_false_step c s : Indexed.step false c s = step c s.
Proof.
  destruct c as [ctx w|n]; [|done]. unfold Indexed.step, step.
  unfold Indexed.modal_tag_handling, Tags.modal_tag_handling.
  by rewrite indexed_add_tag, indexed_false_edit_tag.
Qed.





End Unique.

(** ** Autocomplete *)

Section AutocompleteFacts.

Lemma startswith_iff (p x : string) :
  Str.startswith p x = true <-> exists v, x = p +:+ v.
Proof.
  split.
  - revert x. induction p as [|a p IH]; intros x H; simpl in *; [by exists x|].
    destruct x as [|b x]; [done|].
    destruct (Ascii.eqb_spec a b) as [->|]; [|done].
    destruct (IH x H) as [v ->]. by exists v.
  - intros [v ->]. apply startswith_app.
Qed.

(** [Str.contains a b] holds exactly where [a] is a substring of [b]. *)
Lemma contains_iff (a b : string) :
  Str.contains a b = true <-> exists u v, b = u +:+ a +:+ v.
Proof.
  split.
  - induction b as [|c b IH]; simpl; intros H.
    + rewrite orb_false_r in H. apply startswith_iff in H as [v ->].
      by exists EmptyString, v.
    + apply orb_true_iff in H as [H|H].
      * apply startswith_iff in H as [v ->]. by exists EmptyString, v.
      * destruct (IH H) as (u & v & ->). by exists (String c u), v.
  - intros (u & v & ->). induction u as [|c u IH]; simpl.
    + pose proof (startswith_app a v) as H.
      destruct (a +:+ v); simpl; by rewrite H.
    + rewrite IH. apply orb_true_r.
Qed.

Variable lower : string -> string.

(** The loop stops at twenty-five choices: from fewer than that, it
    adds the first matching tags up to twenty-five. *)
Lemma autocomplete_loop_take (q : string) (tags : list Tag) (choices : list Choice) :
  length choices < 25 ->
  Tags.autocomplete_loop lower q tags choices
  = choices ++ (Tags.choice_of <$>
                  take (25 - length choices) (List.filter (Tags.matches lower q) tags)).
Proof.
  revert choices. induction tags as [|tag rest IH]; intros choices Hlen.
  - simpl. by rewrite take_nil, app_nil_r.
  - cbn [Tags.autocomplete_loop List.filter].
    destruct (Tags.matches lower q tag).
    + destruct (Nat.leb_spec 25 (length (choices ++ [Tags.choice_of tag]))) as [Hge|Hlt];
        rewrite length_app in *; simpl in *.
      * by replace (25 - length choices) with 1 by lia.
      * rewrite IH by (rewrite length_app; simpl; lia).
        rewrite length_app. simpl.
        replace (25 - length choices) with (S (25 - (length choices + 1))) by lia.
        simpl. by rewrite <- app_assoc.
    + destruct (Nat.leb_spec 25 (length choices)); [lia|]. by apply IH.
Qed.

(** C8: for a query that is not empty, the callback answers with the
    tags whose lowered name has the lowered query as a substring, in
    the order of the collection and at most the first twenty-five of
    them; the query "d.py" matches the name "d.py cogs" and does not
    match the name "other". *)
Theorem autocomplete_substring (q : string) (s : gmap N Tag) :
  q <> EmptyString ->
  (forall x, Str.is_ascii x = true -> lower x = Str.ascii_lower x) ->
  Tags.tag_name_autocomplete lower q s
  = Sent (Choices (Tags.choice_of <$>
                     take 25 (List.filter (Tags.matches lower q)
                                (Collection.find_all s).*2)))
  /\ (forall t, Tags.matches lower q t = true
                <-> exists u v, lower (name t) = u +:+ lower q +:+ v)
  /\ (forall t, name t = "d.py cogs" -> Tags.matches lower "d.py" t = true)
  /\ (forall t, name t = "other" -> Tags.matches lower "d.py" t = false).
Proof.
  intros Hq Hlower. split; [|split; [|split]].
  - unfold Tags.tag_name_autocomplete. destruct q; [done|].
    by rewrite autocomplete_loop_take by (simpl; lia).
  - intros t. apply contains_iff.
  - intros t Ht. unfold Tags.matches. rewrite Ht, !Hlower by reflexivity. reflexivity.
  - intros t Ht. unfold Tags.matches. rewrite Ht, !Hlower by reflexivity. reflexivity.
Qed.

End AutocompleteFacts.

(** ** The list display *)

Section ListFacts.

Context {A : Type}.
Implicit Types (l c : list A) (k m : nat).









End ListFacts.

Section Lines.

Implicit Types (sep c a : ascii) (x y rest : string).










End Lines.

Section ListDisplay.

Implicit Types (s : gmap N Tag).




End ListDisplay.

(** ** The theorems at sample inputs *)

Section Witnesses.

Lemma add_tag_already_exists_witness :
  (exists i t, Sample.two_tags !! i = Some t /\ name t = tag_name Sample.new_a)
  /\ Tags.add_tag Sample.new_a Sample.later Sample.two_tags
     = (Sample.two_tags, Sent (AlreadyExists "a")).
Proof.
  assert (H : exists i t, Sample.two_tags !! i = Some t /\ name t = tag_name Sample.new_a).
  { exists 1%N, (created Sample.new_a (mkWorld 10 1)). split; reflexivity. }
  split; [exact H | exact (add_tag_already_exists Sample.new_a Sample.later Sample.two_tags H)].
Defined.

Lemma add_tag_then_find_witness :
  let ctx := mkModal "astro_new_tag" "c" "third" 9 in
  (forall i t, Sample.two_tags !! i = Some t -> name t <> tag_name ctx)
  /\ Sample.two_tags !! new_id Sample.later = None
  /\ (Tags.add_tag ctx Sample.later Sample.two_tags).2 = Sent (NowExists "c")
  /\ exists i t,
       Collection.find_one "c" (Tags.add_tag ctx Sample.later Sample.two_tags).1 = Some (i, t)
       /\ name t = "c" /\ description t = "third".
Proof.
  intros ctx.
  assert (H : forall i t, Sample.two_tags !! i = Some t -> name t <> tag_name ctx).
  { apply find_one_None. reflexivity. }
  assert (Hid : Sample.two_tags !! new_id Sample.later = None) by reflexivity.
  destruct (add_tag_then_find ctx Sample.later Sample.two_tags H) as [Hok Hfind].
  split; [exact H|]. split; [exact Hid|]. split; [exact (Hok Hid)|].
  destruct (Hfind (Hok Hid)) as (i & t & Hf & Hn & Hd & _).
  exists i, t. auto.
Defined.

Lemma edit_tag_not_found_or_saved_witness :
  Oid.valid 2 /\ custom_id Sample.b_to_a = edit_modal_id 2
  /\ Tags.edit_tag Sample.b_to_a Sample.later ∅ = (∅, Sent OriginalNotFound)
  /\ exists t', (Tags.edit_tag Sample.b_to_a Sample.later Sample.two_tags).1 !! 2%N = Some t'
                /\ last_edited_at t' = Some 40%Z.
Proof.
  assert (Hv : Oid.valid 2) by reflexivity.
  assert (Hc : custom_id Sample.b_to_a = edit_modal_id 2) by reflexivity.
  split; [exact Hv|]. split; [exact Hc|]. split.
  - exact (proj1 (edit_tag_not_found_or_saved Sample.b_to_a Sample.later ∅ 2 Hv Hc) eq_refl).
  - exact (proj2 (proj2 (edit_tag_not_found_or_saved Sample.b_to_a Sample.later Sample.two_tags 2 Hv Hc)
                           (created Sample.new_b (mkWorld 20 2)) eq_refl)).
Defined.

Lemma edit_tag_frame_witness :
  Oid.valid 2 /\ custom_id Sample.b_to_a = edit_modal_id 2
  /\ Sample.two_tags !! 2%N = Some (created Sample.new_b (mkWorld 20 2))
  /\ (forall j, j <> 2%N ->
        (Tags.edit_tag Sample.b_to_a Sample.later Sample.two_tags).1 !! j = Sample.two_tags !! j).
Proof.
  assert (Hv : Oid.valid 2) by reflexivity.
  assert (Hc : custom_id Sample.b_to_a = edit_modal_id 2) by reflexivity.
  assert (Ht : Sample.two_tags !! 2%N = Some (created Sample.new_b (mkWorld 20 2)))
    by reflexivity.
  split; [exact Hv|]. split; [exact Hc|]. split; [exact Ht|].
  exact (proj1 (proj2 (edit_tag_frame Sample.b_to_a Sample.later Sample.two_tags 2 _ Hv Hc Ht))).
Defined.

Lemma edit_tag_overwrites_witness :
  Oid.valid 2 /\ custom_id Sample.b_to_a = edit_modal_id 2
  /\ Sample.two_tags !! 2%N = Some (created Sample.new_b (mkWorld 20 2))
  /\ exists t', (Tags.edit_tag Sample.b_to_a Sample.later Sample.two_tags).1 !! 2%N = Some t'
                /\ name t' = "a" /\ description t' = "second".
Proof.
  assert (Hv : Oid.valid 2) by reflexivity.
  assert (Hc : custom_id Sample.b_to_a = edit_modal_id 2) by reflexivity.
  assert (Ht : Sample.two_tags !! 2%N = Some (created Sample.new_b (mkWorld 20 2)))
    by reflexivity.
  split; [exact Hv|]. split; [exact Hc|]. split; [exact Ht|].
  exact (edit_tag_overwrites Sample.b_to_a Sample.later Sample.two_tags 2 _ Hv Hc Ht).
Defined.

Lemma delete_reports_witness :
  (exists i t, Sample.two_tags !! i = Some t /\ name t = "a")
  /\ (exists i, Tags.delete "a" Sample.two_tags
                = (base.delete i Sample.two_tags, Sent (Deleted "a")))
  /\ Tags.delete "c" Sample.two_tags = (Sample.two_tags, Raised (BadArgument_NotExist "c")).
Proof.
  assert (H : exists i t, Sample.two_tags !! i = Some t /\ name t = "a").
  { exists 1%N, (created Sample.new_a (mkWorld 10 1)). split; reflexivity. }
  assert (H' : forall i t, Sample.two_tags !! i = Some t -> name t <> "c").
  { apply find_one_None. reflexivity. }
  split; [exact H|]. split.
  - destruct (proj1 (delete_reports "a" Sample.two_tags) H) as (i & t & _ & _ & Hd & _).
    exists i. exact Hd.
  - exact (proj2 (delete_reports "c" Sample.two_tags) H').
Defined.

Lemma delete_then_find_witness :
  let t := created Sample.new_a (mkWorld 10 1) in
  Sample.two_tags !! 1%N = Some t /\ name t = "a"
  /\ (forall j u, Sample.two_tags !! j = Some u -> name u = "a" -> j = 1%N)
  /\ Collection.find_one "a" (Tags.delete "a" Sample.two_tags).1 = None.
Proof.
  intros t.
  assert (Hi : Sample.two_tags !! 1%N = Some t) by reflexivity.
  assert (Hn : name t = "a") by reflexivity.
  assert (Hone : forall j u, Sample.two_tags !! j = Some u -> name u = "a" -> j = 1%N).
  { assert (Hu : unique_names Sample.two_tags).
    { apply (add_tag_unique_names Sample.new_b (mkWorld 20 2)
               (run [ModalCompletion Sample.new_a (mkWorld 10 1)] ∅)).
      apply (add_tag_unique_names Sample.new_a (mkWorld 10 1) ∅), unique_names_empty. }
    intros j u Hj Hu'. apply (Hu j 1%N u t); congruence. }
  split; [exact Hi|]. split; [exact Hn|]. split; [exact Hone|].
  exact (proj1 (proj2 (delete_then_find "a" Sample.two_tags 1 t Hi Hn Hone))).
Defined.


Lemma autocomplete_substring_witness :
  "D.py" <> EmptyString
  /\ (forall x, Str.is_ascii x = true -> Str.ascii_lower x = Str.ascii_lower x)
  /\ Tags.tag_name_autocomplete Str.ascii_lower "D.py" Sample.dpy
     = Sent (Choices [mkChoice "d.py cogs" "d.py cogs"]).
Proof.
  assert (Hq : "D.py" <> EmptyString) by discriminate.
  assert (Hl : forall x, Str.is_ascii x = true -> Str.ascii_lower x = Str.ascii_lower x)
    by reflexivity.
  split; [exact Hq|]. split; [exact Hl|].
  exact (proj1 (autocomplete_substring Str.ascii_lower "D.py" Sample.dpy Hq Hl)).
Defined.


End Witnesses.

(** * Further properties of the extension *)

(** ** Looking a name up *)

Section Lookup.

Implicit Types (s : gmap N Tag) (n : string) (i j : N) (t : Tag).

(** X1: [view] of a name some stored tag has sends the description of a
    stored tag with that name; where names are unique, it is the
    description of the one tag with that name. *)
Theorem view_sends_description n s :
  (exists i t, s !! i = Some t /\ name t = n) ->
  (exists i t, s !! i = Some t /\ name t = n
               /\ Tags.view n s = Sent (Content (description t)))
  /\ (unique_names s ->
      forall i t, s !! i = Some t -> name t = n ->
                  Tags.view n s = Sent (Content (description t))).
Proof.
  intros H. apply find_one_is_Some in H as [[i t] Hf].
  apply find_one_Some in Hf as Hit. destruct Hit as [Hi Hn].
  unfold Tags.view. rewrite Hf. split.
  - by exists i, t.
  - intros Hu j u Hj Hnu. assert (j = i) as -> by (apply (Hu j i u t); congruence).
    congruence.
Qed.

(** X2: [view], [info], [edit] and [delete] agree on the names that do
    not exist: each of them raises the does-not-exist error exactly
    where no stored tag has the name, and [delete] then leaves the
    collection as it is. *)
Theorem commands_agree_on_missing (relative : Z -> string) (mention : string) n s :
  let missing := forall i t, s !! i = Some t -> name t <> n in
  (missing <-> Tags.view n s = Raised (BadArgument_NotExist n))
  /\ (missing <-> Tags.info relative mention n s = Raise (BadArgument_NotExist n))
  /\ (missing <-> Tags.edit n s = Raise (BadArgument_NotExist n))
  /\ (missing <-> Tags.delete n s = (s, Raised (BadArgument_NotExist n))).
Proof.
  intros missing. unfold missing. rewrite <- find_one_None.
  unfold Tags.view, Tags.info, Tags.edit, Tags.delete.
  destruct (Collection.find_one n s) as [[i t]|]; repeat split; try done.
Qed.

End Lookup.

(** ** What a handler leaves as it is *)

Section Frames.

Implicit Types (s : gmap N Tag) (n : string) (i j : N) (t : Tag)
  (ctx : ModalContext) (w : World).

Lemma add_tag_cases ctx w s :
  Tags.add_tag ctx w s = (s, Sent (AlreadyExists (tag_name ctx)))
  \/ Tags.add_tag ctx w s = (s, Raised DuplicateKeyError)
  \/ (Collection.find_one (tag_name ctx) s = None /\ s !! new_id w = None
      /\ Tags.add_tag ctx w s
         = (<[new_id w := created ctx w]> s, Sent (NowExists (tag_name ctx)))).
Proof.
  destruct (Collection.find_one (tag_name ctx) s) eqn:Hf.
  - left. by apply add_tag_taken.
  - right. rewrite add_tag_free by done.
    destruct (s !! new_id w) eqn:Hid; [by left | by right].
Qed.

Lemma edit_tag_cases ctx w s :
  Tags.edit_tag ctx w s = (s, Raised InvalidId)
  \/ Tags.edit_tag ctx w s = (s, Sent OriginalNotFound)
  \/ exists i t,
       Oid.PydanticObjectId (Str.removeprefix "astro_edit_tag_" (custom_id ctx)) = Some i
       /\ s !! i = Some t
       /\ Tags.edit_tag ctx w s = (<[i := edited ctx w t]> s, Sent (edit_message ctx t)).
Proof.
  unfold Tags.edit_tag, Collection.get.
  destruct (Oid.PydanticObjectId _) as [i|]; [|by left].
  destruct (s !! i) as [t|] eqn:Hi; [|by right; left].
  right; right. by exists i, t.
Qed.

Lemma add_tag_keeps_stored_tags_aux ctx w s :
  (forall j t, s !! j = Some t -> (Tags.add_tag ctx w s).1 !! j = Some t)
  /\ size s <= size (Tags.add_tag ctx w s).1 <= S (size s).
Proof.
  destruct (add_tag_cases ctx w s) as [->|[->|(_ & Hid & ->)]]; simpl;
    try (split; [done | lia]).
  split.
  - intros j t Hj. rewrite lookup_insert_ne; [done|]. intros <-. congruence.
  - rewrite map_size_insert_None by done. lia.
Qed.

(** X3: [add_tag] keeps every stored tag as it is and adds at most one
    tag. *)
Theorem add_tag_keeps_stored_tags ctx w s :
  (forall j t, s !! j = Some t -> (Tags.add_tag ctx w s).1 !! j = Some t)
  /\ size s <= size (Tags.add_tag ctx w s).1 <= S (size s).
Proof.
  destruct (add_tag_cases ctx w s) as [->|[->|(_ & Hid & ->)]]; simpl;
    try (split; [done | lia]).
  split.
  - intros j t Hj. destruct (decide (j = new_id w)) as [->|Hne]; [congruence|].
    by rewrite lookup_insert_ne.
  - rewrite map_size_insert_None by done. lia.
Qed.

(** X4: whatever form it is given, [edit_tag] neither adds nor removes a
    tag: the stored ids are the same before and after. *)
Theorem edit_tag_keeps_ids ctx w s :
  dom (Tags.edit_tag ctx w s).1 = dom s /\ size (Tags.edit_tag ctx w s).1 = size s.
Proof.
  destruct (edit_tag_cases ctx w s) as [->|[->|(i & t & _ & Hi & ->)]]; simpl;
    [done | done |].
  split.
  - apply dom_insert_lookup_L. by rewrite Hi.
  - rewrite map_size_insert_Some; [done|]. by rewrite Hi.
Qed.

Lemma modal_tag_handling_cases ctx w s :
  (Tags.modal_tag_handling ctx w s).1 = (Tags.add_tag ctx w s).1
  \/ (Tags.modal_tag_handling ctx w s).1 = (Tags.edit_tag ctx w s).1
  \/ (Tags.modal_tag_handling ctx w s).1 = s.
Proof.
  unfold Tags.modal_tag_handling.
  destruct (String.eqb _ _); [by left|].
  destruct (Str.startswith _ _); [by right; left | by right; right].
Qed.

(** X5: no interaction changes the [created_at] or the [author_id] of a
    stored tag: a tag that is there before and after has the same. *)
Theorem step_keeps_created_at c s i t t' :
  s !! i = Some t -> step c s !! i = Some t' ->
  created_at t' = created_at t /\ author_id t' = author_id t.
Proof.
  intros Hi Hi'. destruct c as [ctx w|n]; simpl in Hi'.
  - destruct (modal_tag_handling_cases ctx w s) as [E|[E|E]]; rewrite E in Hi'.
    + apply (proj1 (add_tag_keeps_stored_tags_aux ctx w s)) in Hi. split; congruence.
    + destruct (edit_tag_cases ctx w s) as [E'|[E'|(j & u & _ & Hj & E')]];
        rewrite E' in Hi'; simpl in Hi'; [split; congruence..|].
      destruct (decide (j = i)) as [->|Hne].
      * rewrite lookup_insert_eq in Hi'. injection Hi' as <-.
        assert (u = t) as -> by congruence. done.
      * rewrite lookup_insert_ne in Hi' by done. split; congruence.
    + split; congruence.
  - unfold Tags.delete, Collection.delete in Hi'.
    destruct (Collection.find_one n s) as [[j u]|]; simpl in Hi'.
    + apply lookup_delete_Some in Hi' as [_ Hi']. split; congruence.
    + split; congruence.
Qed.

End Frames.

(** ** Names stay unique, edits apart *)

Section UniqueRuns.

Implicit Types (s : gmap N Tag) (n : string) (i j : N) (t : Tag)
  (ctx : ModalContext) (w : World).

Lemma edit_tag_unique_names_decoded ctx w s :
  unique_names s ->
  (forall i, Oid.PydanticObjectId (Str.removeprefix "astro_edit_tag_" (custom_id ctx)) = Some i ->
     forall j u, s !! j = Some u -> name u = tag_name ctx -> j = i) ->
  unique_names (Tags.edit_tag ctx w s).1.
Proof.
  intros Hu Hfree.
  destruct (edit_tag_cases ctx w s) as [->|[->|(i & t0 & Hd & Hi & ->)]]; simpl;
    [done | done |].
  specialize (Hfree i Hd). intros j k t u Hj Hk Hn.
  destruct (decide (j = i)) as [->|Hj'], (decide (k = i)) as [->|Hk']; [done| | |].
  - rewrite lookup_insert_eq in Hj. rewrite lookup_insert_ne in Hk by done.
    injection Hj as <-. simpl in Hn. symmetry. eauto.
  - rewrite lookup_insert_eq in Hk. rewrite lookup_insert_ne in Hj by done.
    injection Hk as <-. simpl in Hn. eauto.
  - rewrite lookup_insert_ne in Hj, Hk by done. eauto.
Qed.

Lemma step_no_edit_unique_names c s :
  no_edit c = true -> unique_names s -> unique_names (step c s).
Proof.
  intros Hc Hu. destruct c as [ctx w|n]; unfold step, no_edit in *.
  - unfold Tags.modal_tag_handling.
    destruct (String.eqb (custom_id ctx) "astro_new_tag").
    + by apply add_tag_unique_names.
    + cbn [orb] in Hc. apply negb_true_iff in Hc. by rewrite Hc.
  - by apply delete_unique_names.
Qed.

(** X6: an interaction keeps the names of the stored tags unique, unless
    it is an edit that submits a name another stored tag has. *)
Theorem step_keeps_unique_names c s :
  unique_names s ->
  (forall ctx w i,
     c = ModalCompletion ctx w -> no_edit c = false ->
     Oid.PydanticObjectId (Str.removeprefix "astro_edit_tag_" (custom_id ctx)) = Some i ->
     forall j u, s !! j = Some u -> name u = tag_name ctx -> j = i) ->
  unique_names (step c s).
Proof.
  intros Hu Hfree. destruct (no_edit c) eqn:Hc.
  - by apply step_no_edit_unique_names.
  - destruct c as [ctx w|n]; [|done]. unfold step, no_edit in *.
    apply orb_false_iff in Hc as [Hnew Hedit]. apply negb_false_iff in Hedit.
    unfold Tags.modal_tag_handling. rewrite Hnew, Hedit. cbn [fst].
    apply edit_tag_unique_names_decoded; [done|].
    intros i Hd. by apply (Hfree ctx w i).
Qed.

(** X7: after a run of creations and deletions from the empty
    collection, no two stored tags have the same name. *)
Theorem run_without_edit_unique_names cs :
  forallb no_edit cs = true -> unique_names (run cs ∅).
Proof.
  assert (H : forall s, unique_names s -> forallb no_edit cs = true ->
                        unique_names (run cs s)).
  { induction cs as [|c cs IH]; intros s Hu Hcs; [done|].
    simpl in Hcs. apply andb_true_iff in Hcs as [Hc Hcs].
    apply IH; [|done]. by apply step_no_edit_unique_names. }
  apply H, unique_names_empty.
Qed.

End UniqueRuns.

(** ** Custom ids *)

Section CustomIds.

Implicit Types (s : gmap N Tag) (ctx : ModalContext) (w : World).

Lemma length_drop_str (k : nat) (x : string) :
  String.length (Str.drop k x) = String.length x - k.
Proof.
  revert x. induction k as [|k IH]; intros [|a x]; simpl; done.
Qed.

(** X8: a submitted form whose custom id starts with "astro_edit_tag"
    and is not thirty-nine characters long (the prefix, an underscore
    and the twenty-four digits of an id) is handed to [edit_tag], which
    raises on it; the collection stays as it is. *)
Theorem modal_tag_handling_malformed_id ctx w s :
  Str.startswith "astro_edit_tag" (custom_id ctx) = true ->
  String.length (custom_id ctx) <> 39 ->
  Tags.modal_tag_handling ctx w s = (s, Some (Raised InvalidId)).
Proof.
  intros Hp Hlen. apply startswith_iff in Hp as [v Hv].
  unfold Tags.modal_tag_handling, Tags.edit_tag. rewrite Hv in *.
  assert (Hnew : String.eqb ("astro_edit_tag" +:+ v) "astro_new_tag" = false)
    by reflexivity.
  rewrite Hnew, startswith_app.
  assert (Hnone : Oid.PydanticObjectId
                    (Str.removeprefix "astro_edit_tag_" ("astro_edit_tag" +:+ v)) = None).
  { unfold Oid.PydanticObjectId, Str.removeprefix.
    destruct (Str.startswith "astro_edit_tag_" ("astro_edit_tag" +:+ v)) eqn:Hs.
    - rewrite length_drop_str.
      destruct (Nat.eqb_spec (String.length ("astro_edit_tag" +:+ v)
                              - String.length "astro_edit_tag_") 24) as [E|]; [|done].
      cbn [String.append String.length] in E, Hlen. lia.
    - destruct (Nat.eqb (String.length ("astro_edit_tag" +:+ v)) 24); [|done].
      reflexivity. }
  by rewrite Hnone.
Qed.

End CustomIds.

(** ** The forms and their submissions *)

Section Forms.

Implicit Types (s : gmap N Tag) (n : string) (i j : N) (t : Tag)
  (ctx : ModalContext) (w : World) (m : Modal).

Lemma edit_Send n s m :
  Tags.edit n s = Send m ->
  exists i t, Collection.find_one n s = Some (i, t)
    /\ modal_custom_id m = edit_modal_id i
    /\ input_value <$> modal_components m = [Some (name t); Some (description t)]
    /\ (forall ctx, submitted m ctx = true ->
          custom_id ctx = modal_custom_id m
          /\ 1 <= String.length (tag_name ctx) <= 100
          /\ 1 <= String.length (tag_description ctx) <= 2000).
Proof.
  unfold Tags.edit. destruct (Collection.find_one n s) as [[i t]|]; [|done].
  intros [= <-]. exists i, t. split; [done|]. split; [done|]. split; [done|].
  intros ctx H. unfold submitted, within, response in H; cbn -[Nat.leb Oid.str] in H.
  rewrite !andb_true_iff, !Nat.leb_le, String.eqb_eq in H.
  destruct_and!. repeat split; done || lia.
Qed.

Lemma create_submitted ctx :
  submitted Tags.create ctx = true ->
  custom_id ctx = "astro_new_tag"
  /\ 1 <= String.length (tag_name ctx) <= 100
  /\ 1 <= String.length (tag_description ctx) <= 2000.
Proof.
  intros H. unfold submitted, within, response in H; cbn -[Nat.leb Oid.str] in H.
  rewrite !andb_true_iff, !Nat.leb_le, String.eqb_eq in H.
  destruct_and!. repeat split; done || lia.
Qed.

Lemma modal_tag_handling_new ctx w s :
  custom_id ctx = "astro_new_tag" ->
  Tags.modal_tag_handling ctx w s
  = ((Tags.add_tag ctx w s).1, Some (Tags.add_tag ctx w s).2).
Proof. intros Hc. unfold Tags.modal_tag_handling. by rewrite Hc. Qed.

Lemma modal_tag_handling_edit_id ctx w s i :
  custom_id ctx = edit_modal_id i ->
  Tags.modal_tag_handling ctx w s
  = ((Tags.edit_tag ctx w s).1, Some (Tags.edit_tag ctx w s).2).
Proof. intros Hc. unfold Tags.modal_tag_handling. by rewrite Hc. Qed.

(** X9: the form [edit] opens for the name [n] shows the name and the
    description of a stored tag named [n], and a submission of that
    form, whatever texts it holds, is saved in the place of that very
    tag: the tag gets the submitted name and description, and the
    answer says edited, or re-named where the name differs. *)
Theorem edit_form_edits_shown_tag n s m :
  Tags.edit n s = Send m ->
  exists i t,
    s !! i = Some t /\ name t = n
    /\ input_value <$> modal_components m = [Some (name t); Some (description t)]
    /\ (Oid.valid i ->
        forall ctx w, custom_id ctx = modal_custom_id m ->
          Tags.modal_tag_handling ctx w s
          = (<[i := edited ctx w t]> s, Some (Sent (edit_message ctx t)))).
Proof.
  intros H. apply edit_Send in H as (i & t & Hf & Hid & Hval & _).
  apply find_one_Some in Hf as [Hi Hn]. exists i, t. repeat split; try done.
  intros Hv ctx w Hc. rewrite Hid in Hc.
  rewrite (modal_tag_handling_edit_id ctx w s i) by done.
  by rewrite (edit_tag_id ctx w s i), Hi by done.
Qed.

(** X10: a submission of the edit form with the shown texts left as they
    are changes nothing but the [last_edited_at] of the shown tag, is
    answered as an edit without re-naming, and keeps names unique. *)
Theorem edit_form_unchanged n s m ctx w :
  map_Forall (fun i _ => Oid.valid i) s ->
  Tags.edit n s = Send m ->
  custom_id ctx = modal_custom_id m ->
  input_value <$> modal_components m = [Some (tag_name ctx); Some (tag_description ctx)] ->
  exists i t,
    s !! i = Some t /\ name t = n
    /\ Tags.modal_tag_handling ctx w s
       = (<[i := mkTag (name t) (author_id t) (description t) (created_at t)
                       (Some (now w))]> s,
          Some (Sent (Edited n)))
    /\ (unique_names s -> unique_names (Tags.modal_tag_handling ctx w s).1).
Proof.
  intros Hvalid H Hc Hshown.
  apply edit_Send in H as (i & t & Hf & Hid & Hval & _).
  apply find_one_Some in Hf as [Hi Hn]. exists i, t.
  rewrite Hval in Hshown. injection Hshown as Hname Hdesc.
  assert (Hv : Oid.valid i) by apply (Hvalid i t Hi).
  rewrite Hid in Hc.
  rewrite (modal_tag_handling_edit_id ctx w s i) by done.
  split; [done|]. split; [done|]. split.
  - rewrite (edit_tag_id ctx w s i), Hi by done. simpl.
    unfold edited, edit_message. rewrite <- Hname, <- Hdesc, String.eqb_refl.
    by rewrite Hn.
  - intros Hu. simpl. apply (edit_tag_unique_names ctx w s i); try done.
    intros j u Hj Hnu. apply (Hu j i u t); congruence.
Qed.

(** X11: a submission of the create form with a name no stored tag has
    is handed to [add_tag], which stores it under the id of the driver
    when that id is new; [view] of the name then sends the submitted
    description, and the stored texts are within the bounds of the
    form. *)
Theorem create_form_then_view ctx w s :
  submitted Tags.create ctx = true ->
  (forall i t, s !! i = Some t -> name t <> tag_name ctx) ->
  s !! new_id w = None ->
  Tags.modal_tag_handling ctx w s
  = (<[new_id w := created ctx w]> s, Some (Sent (NowExists (tag_name ctx))))
  /\ Tags.view (tag_name ctx) (Tags.modal_tag_handling ctx w s).1
     = Sent (Content (tag_description ctx))
  /\ bounded (created ctx w).
Proof.
  intros Hsub Hfree Hid. apply create_submitted in Hsub as (Hc & Hn & Hd).
  rewrite modal_tag_handling_new by done.
  rewrite add_tag_free by (by apply find_one_None). rewrite Hid. simpl.
  split; [done|]. split; [|done].
  unfold Tags.view.
  rewrite (find_one_unique (tag_name ctx) _ (new_id w) (created ctx w)); [done| | |].
  - apply lookup_insert_eq.
  - done.
  - intros j u Hj Hu. destruct (decide (j = new_id w)) as [|Hne]; [done|].
    rewrite lookup_insert_ne in Hj by done. by apply Hfree in Hj.
Qed.

Lemma opened_submitted m ctx :
  opened m -> submitted m ctx = true ->
  1 <= String.length (tag_name ctx) <= 100
  /\ 1 <= String.length (tag_description ctx) <= 2000.
Proof.
  intros [->|(n & s & H)] Hs.
  - by apply create_submitted in Hs as (_ & ? & ?).
  - apply edit_Send in H as (i & t & _ & _ & _ & H). by apply H in Hs as (_ & ? & ?).
Qed.

Lemma step_bounded c s :
  from_forms c -> map_Forall (fun _ t => bounded t) s ->
  map_Forall (fun _ t => bounded t) (step c s).
Proof.
  intros Hc Hb. destruct c as [ctx w|n]; unfold step.
  - destruct Hc as (m & Hm & Hs). pose proof (opened_submitted m ctx Hm Hs) as Hlen.
    destruct (modal_tag_handling_cases ctx w s) as [E|[E|E]]; rewrite E; [| |done].
    + destruct (add_tag_cases ctx w s) as [->|[->|(_ & _ & ->)]]; [done..|].
      simpl. by apply map_Forall_insert_2.
    + destruct (edit_tag_cases ctx w s) as [->|[->|(i & t & _ & _ & ->)]]; [done..|].
      simpl. by apply map_Forall_insert_2.
  - unfold Tags.delete, Collection.delete.
    destruct (Collection.find_one n s) as [[i t]|]; simpl; [|done].
    by apply map_Forall_delete.
Qed.

(** X12: in a run from the empty collection whose modal completions are
    submissions of the forms [create] and [edit] open, every stored tag
    has a name of 1 to 100 characters and a description of 1 to 2000:
    in particular no description is empty. *)
Theorem run_from_forms_bounded cs i t :
  Forall from_forms cs -> run cs ∅ !! i = Some t -> bounded t.
Proof.
  intros Hcs.
  assert (H : forall s, map_Forall (fun _ t => bounded t) s ->
                        map_Forall (fun _ t => bounded t) (run cs s)).
  { induction Hcs as [|c cs Hc Hcs IH]; intros s Hs; [done|].
    apply IH. by apply step_bounded. }
  intros Hi. apply (H ∅ (map_Forall_empty _) i t Hi).
Qed.

End Forms.

(** ** What autocomplete offers *)

Section Offers.

Variable lower : string -> string.

Implicit Types (s : gmap N Tag) (q : string) (t : Tag).

Lemma stored_tag s t :
  t ∈ (Collection.find_all s).*2 <-> exists i, s !! i = Some t.
Proof.
  unfold Collection.find_all. rewrite list_elem_of_fmap. split.
  - intros ([i u] & -> & Hin). exists i. by apply elem_of_find_all.
  - intros [i Hi]. exists (i, t). split; [done|]. by apply elem_of_find_all.
Qed.

Lemma elem_of_List_filter {A} (f : A -> bool) (l : list A) (x : A) :
  x ∈ List.filter f l <-> x ∈ l /\ f x = true.
Proof. rewrite !list_elem_of_In. apply filter_In. Qed.

(** the tags whose names the callback offers *)
Lemma autocomplete_offered q s :
  exists l,
    Tags.tag_name_autocomplete lower q s = Sent (Choices (Tags.choice_of <$> l))
    /\ length l <= 25
    /\ (forall t, t ∈ l -> t ∈ (Collection.find_all s).*2)
    /\ (q = EmptyString -> l = take 25 (Collection.find_all s).*2)
    /\ (q <> EmptyString ->
        l = take 25 (List.filter (Tags.matches lower q) (Collection.find_all s).*2)).
Proof.
  destruct q as [|a q].
  - exists (take 25 (Collection.find_all s).*2). split; [|split; [|split; [|split]]].
    + unfold Tags.tag_name_autocomplete. by rewrite fmap_take.
    + rewrite length_take. lia.
    + intros t Ht. by apply (subseteq_take 25).
    + done.
    + done.
  - exists (take 25 (List.filter (Tags.matches lower (String a q))
                       (Collection.find_all s).*2)).
    split; [|split; [|split; [|split]]].
    + unfold Tags.tag_name_autocomplete.
      by rewrite autocomplete_loop_take by (simpl; lia).
    + rewrite length_take. lia.
    + intros t Ht. apply (subseteq_take 25) in Ht.
      by apply elem_of_List_filter in Ht as [Ht _].
    + done.
    + done.
Qed.

(** X13: whatever the query, the callback offers at most twenty-five
    choices; each has the name of a stored tag as its name and as its
    value, so [view] of an offered value finds a tag and sends its
    description. *)
Theorem autocomplete_offers_stored_names q s :
  exists cs,
    Tags.tag_name_autocomplete lower q s = Sent (Choices cs)
    /\ length cs <= 25
    /\ forall c, c ∈ cs ->
         choice_name c = choice_value c
         /\ (exists i t, s !! i = Some t /\ name t = choice_value c)
         /\ exists d, Tags.view (choice_value c) s = Sent (Content d).
Proof.
  destruct (autocomplete_offered q s) as (l & -> & Hlen & Hin & _).
  eexists. split; [done|]. split; [by rewrite length_fmap|].
  intros c Hc. apply list_elem_of_fmap in Hc as (t & -> & Ht).
  apply Hin, stored_tag in Ht as [i Hi]. simpl.
  split; [done|]. split; [by exists i, t|].
  assert (Hs : is_Some (Collection.find_one (name t) s))
    by (apply find_one_is_Some; by exists i, t).
  destruct Hs as [[j u] Hf]. unfold Tags.view. rewrite Hf. by eexists.
Qed.

(** X14: below the cap nothing is left out: an empty query on a
    collection of at most twenty-five tags offers every stored tag, and
    a query that is not empty and that at most twenty-five stored tags
    match offers exactly the stored tags that match. *)
Theorem autocomplete_complete_below_cap q s :
  exists cs,
    Tags.tag_name_autocomplete lower q s = Sent (Choices cs)
    /\ (q = EmptyString -> size s <= 25 ->
        forall c, c ∈ cs <-> exists i t, s !! i = Some t /\ c = Tags.choice_of t)
    /\ (q <> EmptyString ->
        length (List.filter (Tags.matches lower q) (Collection.find_all s).*2) <= 25 ->
        forall c, c ∈ cs <->
          exists i t, s !! i = Some t /\ Tags.matches lower q t = true
                      /\ c = Tags.choice_of t).
Proof.
  destruct (autocomplete_offered q s) as (l & -> & _ & _ & Hempty & Hquery).
  eexists. split; [done|]. split.
  - intros Hq Hsize c. rewrite (Hempty Hq), take_ge.
    2:{ by rewrite length_fmap, length_find_all. }
    rewrite list_elem_of_fmap. split.
    + intros (t & -> & Ht). apply stored_tag in Ht as [i Hi]. by exists i, t.
    + intros (i & t & Hi & ->). exists t. split; [done|]. apply stored_tag. by exists i.
  - intros Hq Hcount c. rewrite (Hquery Hq), take_ge by done.
    rewrite list_elem_of_fmap. split.
    + intros (t & -> & Ht). apply elem_of_List_filter in Ht as [Ht Hm].
      apply stored_tag in Ht as [i Hi]. by exists i, t.
    + intros (i & t & Hi & Hm & ->). exists t. split; [done|].
      apply elem_of_List_filter. split; [|done]. apply stored_tag. by exists i.
Qed.

End Offers.

(** ** One embed or a paginator *)

Section ListSend.

Implicit Types (s : gmap N Tag).



End ListSend.

(** ** How the operations compose *)

Section Compose.

Implicit Types (s : gmap N Tag) (n : string) (i j : N) (t : Tag)
  (ctx : ModalContext) (w : World).

Lemma find_one_insert_free n s i t :
  name t = n ->
  (forall j u, s !! j = Some u -> name u = n -> j = i) ->
  Collection.find_one n (<[i := t]> s) = Some (i, t).
Proof.
  intros Hn Hfree. apply find_one_unique; [apply lookup_insert_eq | done |].
  intros j u Hj Hu. destruct (decide (j = i)) as [|Hne]; [done|].
  rewrite lookup_insert_ne in Hj by done. eauto.
Qed.

(** X16: a tag that [add_tag] has just stored can be deleted again, and
    the collection is then the one before the creation. *)
Theorem add_tag_then_delete ctx w s :
  (forall i t, s !! i = Some t -> name t <> tag_name ctx) ->
  s !! new_id w = None ->
  Tags.delete (tag_name ctx) (Tags.add_tag ctx w s).1
  = (s, Sent (Deleted (tag_name ctx))).
Proof.
  intros Hfree Hid. rewrite add_tag_free by (by apply find_one_None).
  rewrite Hid. simpl.
  rewrite (delete_found _ _ (new_id w) (created ctx w)).
  - by rewrite delete_insert_id.
  - apply find_one_insert_free; [done|]. intros j u Hj Hu. by apply Hfree in Hj.
Qed.

(** X17: where names are unique, a name is free again once its tag is
    deleted: [add_tag] with that name then stores a new tag, and [view]
    sends the new description. *)
Theorem delete_then_add_tag ctx w s :
  unique_names s ->
  (exists i t, s !! i = Some t /\ name t = tag_name ctx) ->
  (Tags.delete (tag_name ctx) s).1 !! new_id w = None ->
  Tags.add_tag ctx w (Tags.delete (tag_name ctx) s).1
  = (<[new_id w := created ctx w]> (Tags.delete (tag_name ctx) s).1,
     Sent (NowExists (tag_name ctx)))
  /\ Tags.view (tag_name ctx) (Tags.add_tag ctx w (Tags.delete (tag_name ctx) s).1).1
     = Sent (Content (tag_description ctx)).
Proof.
  intros Hu H Hid. apply find_one_is_Some in H as [[i t] Hf].
  rewrite (delete_found _ _ i t) in * by done. simpl in *.
  apply find_one_Some in Hf as [Hi Hn].
  assert (Hfree : forall j u, base.delete i s !! j = Some u -> name u <> tag_name ctx).
  { intros j u Hj Hnu. apply lookup_delete_Some in Hj as [Hne Hj].
    apply Hne. apply (Hu i j t u); congruence. }
  rewrite add_tag_free by (by apply find_one_None). rewrite Hid. simpl.
  split; [done|]. unfold Tags.view.
  rewrite (find_one_insert_free _ _ (new_id w) (created ctx w)); [done..|].
  intros j u Hj Hnu. by apply Hfree in Hj.
Qed.

(** X18: where names are unique, after an edit that gives the tag a name
    no other tag has, [view] of the submitted name sends the submitted
    description, and the old name, when it differs, does not exist any
    more. *)
Theorem edit_tag_then_view ctx w s i t :
  Oid.valid i -> custom_id ctx = edit_modal_id i -> s !! i = Some t ->
  unique_names s ->
  (forall j u, s !! j = Some u -> name u = tag_name ctx -> j = i) ->
  Tags.view (tag_name ctx) (Tags.edit_tag ctx w s).1
  = Sent (Content (tag_description ctx))
  /\ (name t <> tag_name ctx ->
      Tags.view (name t) (Tags.edit_tag ctx w s).1
      = Raised (BadArgument_NotExist (name t))).
Proof.
  intros Hv Hc Hi Hu Hfree. rewrite (edit_tag_id ctx w s i), Hi by done. simpl.
  unfold Tags.view. split.
  - by rewrite (find_one_insert_free _ _ i (edited ctx w t)).
  - intros Hne.
    assert (Hnone : Collection.find_one (name t) (<[i := edited ctx w t]> s) = None).
    { apply find_one_None. intros j u Hj Hnu.
      destruct (decide (j = i)) as [->|Hji].
      - rewrite lookup_insert_eq in Hj. injection Hj as <-. simpl in Hnu. congruence.
      - rewrite lookup_insert_ne in Hj by done. apply Hji. by apply (Hu j i u t). }
    by rewrite Hnone.
Qed.

Section InfoAfter.

Variable relative : Z -> string.
Variable mention : string.

(** X19: [info] of a tag that [add_tag] has just stored is titled with
    its name, names the submitting user as the author, gives the time
    of the creation, and says N/A for the last edit. *)
Theorem info_after_add_tag ctx w s :
  (forall i t, s !! i = Some t -> name t <> tag_name ctx) ->
  s !! new_id w = None ->
  exists e,
    Tags.info relative mention (tag_name ctx) (Tags.add_tag ctx w s).1 = Send e
    /\ info_title e = tag_name ctx
    /\ (fun f => (info_field_name f, info_field_value f)) <$> info_fields e
       = [ ("Author", "<@" +:+ Str.of_N (author ctx) +:+ ">");
           ("Timestamps",
            "Created at: " +:+ relative (now w) +:+ Tags.newline +:+ "N/A");
           ("Content", "Please use " +:+ mention +:+ ".") ].
Proof.
  intros Hfree Hid. rewrite add_tag_free by (by apply find_one_None).
  rewrite Hid. cbn [fst]. unfold Tags.info.
  rewrite (find_one_insert_free _ _ (new_id w) (created ctx w)).
  - eexists. split; [reflexivity|]. split; reflexivity.
  - done.
  - intros j u Hj Hu. by apply Hfree in Hj.
Qed.

(** X20: [info] after an edit that gives the tag
    a name no other tag has is titled with the submitted name, keeps the
    author and the time of the creation, and gives the time of the edit
    in the place of N/A. *)
Theorem info_after_edit_tag ctx w s i t :
  Oid.valid i -> custom_id ctx = edit_modal_id i -> s !! i = Some t ->
  (forall j u, s !! j = Some u -> name u = tag_name ctx -> j = i) ->
  exists e,
    Tags.info relative mention (tag_name ctx) (Tags.edit_tag ctx w s).1 = Send e
    /\ info_title e = tag_name ctx
    /\ (fun f => (info_field_name f, info_field_value f)) <$> info_fields e
       = [ ("Author", "<@" +:+ author_id t +:+ ">");
           ("Timestamps",
            "Created at: " +:+ relative (created_at t) +:+ Tags.newline
            +:+ relative (now w));
           ("Content", "Please use " +:+ mention +:+ ".") ].
Proof.
  intros Hv Hc Hi Hfree. rewrite (edit_tag_id ctx w s i), Hi by done. cbn [fst].
  unfold Tags.info.
  rewrite (find_one_insert_free _ _ i (edited ctx w t)) by done.
  eexists. split; [reflexivity|]. split; reflexivity.
Qed.

End InfoAfter.

End Compose.

(** ** The further properties at sample inputs *)

Section MoreWitnesses.

Lemma two_tags_unique_names : unique_names Sample.two_tags.
Proof.
  apply (add_tag_unique_names Sample.new_b (mkWorld 20 2)
           (run [ModalCompletion Sample.new_a (mkWorld 10 1)] ∅)).
  apply (add_tag_unique_names Sample.new_a (mkWorld 10 1) ∅), unique_names_empty.
Defined.

Lemma two_tags_no_c : forall i t, Sample.two_tags !! i = Some t -> name t <> "c".
Proof. apply find_one_None. reflexivity. Defined.

Lemma two_tags_valid : map_Forall (fun i _ => Oid.valid i) Sample.two_tags.
Proof.
  assert (Sample.two_tags
          = <[2%N := created Sample.new_b (mkWorld 20 2)]>
              (<[1%N := created Sample.new_a (mkWorld 10 1)]> ∅)) as -> by reflexivity.
  apply map_Forall_insert_2; [reflexivity|].
  apply map_Forall_insert_2; [reflexivity|]. apply map_Forall_empty.
Defined.

Lemma view_sends_description_witness :
  (exists i t, Sample.two_tags !! i = Some t /\ name t = "a")
  /\ exists i t, Sample.two_tags !! i = Some t /\ name t = "a"
       /\ Tags.view "a" Sample.two_tags = Sent (Content (description t)).
Proof.
  assert (H : exists i t, Sample.two_tags !! i = Some t /\ name t = "a").
  { exists 1%N, (created Sample.new_a (mkWorld 10 1)). split; reflexivity. }
  split; [exact H | exact (proj1 (view_sends_description "a" Sample.two_tags H))].
Defined.

Lemma step_keeps_created_at_witness :
  let c := ModalCompletion Cases.b_to_c (mkWorld 30 3) in
  let t := created Sample.new_b (mkWorld 20 2) in
  let t' := edited Cases.b_to_c (mkWorld 30 3) t in
  Sample.two_tags !! 2%N = Some t /\ step c Sample.two_tags !! 2%N = Some t'
  /\ created_at t' = created_at t /\ author_id t' = author_id t.
Proof.
  intros c t t'.
  assert (H : Sample.two_tags !! 2%N = Some t) by reflexivity.
  assert (H' : step c Sample.two_tags !! 2%N = Some t') by reflexivity.
  split; [exact H|]. split; [exact H'|].
  exact (step_keeps_created_at c Sample.two_tags 2 t t' H H').
Defined.

Lemma step_keeps_unique_names_witness :
  let c := ModalCompletion Cases.b_to_c (mkWorld 30 3) in
  unique_names Sample.two_tags /\ no_edit c = false
  /\ unique_names (step c Sample.two_tags).
Proof.
  intros c. split; [exact two_tags_unique_names|]. split; [reflexivity|].
  apply (step_keeps_unique_names c Sample.two_tags two_tags_unique_names).
  intros ctx w i [= <- <-] _ _ j u Hj Hn. by apply two_tags_no_c in Hj.
Defined.

Lemma run_without_edit_unique_names_witness :
  forallb no_edit Cases.create_delete = true
  /\ unique_names (run Cases.create_delete ∅).
Proof.
  assert (H : forallb no_edit Cases.create_delete = true) by reflexivity.
  split; [exact H | exact (run_without_edit_unique_names Cases.create_delete H)].
Defined.

Lemma modal_tag_handling_malformed_id_witness :
  Str.startswith "astro_edit_tag" (custom_id Cases.no_id) = true
  /\ String.length (custom_id Cases.no_id) <> 39
  /\ Tags.modal_tag_handling Cases.no_id Sample.later Sample.two_tags
     = (Sample.two_tags, Some (Raised InvalidId)).
Proof.
  assert (H : Str.startswith "astro_edit_tag" (custom_id Cases.no_id) = true)
    by reflexivity.
  assert (H' : String.length (custom_id Cases.no_id) <> 39) by (simpl; lia).
  split; [exact H|]. split; [exact H'|].
  exact (modal_tag_handling_malformed_id Cases.no_id Sample.later Sample.two_tags H H').
Defined.

Lemma edit_form_edits_shown_tag_witness :
  Tags.edit "b" Sample.two_tags = Send Cases.edit_b_form
  /\ exists i t, Sample.two_tags !! i = Some t /\ name t = "b"
       /\ input_value <$> modal_components Cases.edit_b_form
          = [Some (name t); Some (description t)].
Proof.
  assert (H : Tags.edit "b" Sample.two_tags = Send Cases.edit_b_form) by reflexivity.
  split; [exact H|].
  destruct (edit_form_edits_shown_tag "b" Sample.two_tags Cases.edit_b_form H)
    as (i & t & Hi & Hn & Hv & _).
  exists i, t. auto.
Defined.

Lemma edit_form_unchanged_witness :
  map_Forall (fun i _ => Oid.valid i) Sample.two_tags
  /\ Tags.edit "b" Sample.two_tags = Send Cases.edit_b_form
  /\ custom_id Cases.b_unchanged = modal_custom_id Cases.edit_b_form
  /\ input_value <$> modal_components Cases.edit_b_form
     = [Some (tag_name Cases.b_unchanged); Some (tag_description Cases.b_unchanged)]
  /\ (Tags.modal_tag_handling Cases.b_unchanged Sample.later Sample.two_tags).2
     = Some (Sent (Edited "b")).
Proof.
  assert (H : Tags.edit "b" Sample.two_tags = Send Cases.edit_b_form) by reflexivity.
  assert (Hc : custom_id Cases.b_unchanged = modal_custom_id Cases.edit_b_form)
    by reflexivity.
  assert (Hs : input_value <$> modal_components Cases.edit_b_form
               = [Some (tag_name Cases.b_unchanged);
                  Some (tag_description Cases.b_unchanged)]) by reflexivity.
  split; [exact two_tags_valid|]. split; [exact H|]. split; [exact Hc|].
  split; [exact Hs|].
  destruct (edit_form_unchanged "b" Sample.two_tags Cases.edit_b_form Cases.b_unchanged
              Sample.later two_tags_valid H Hc Hs) as (i & t & _ & _ & -> & _).
  reflexivity.
Defined.

Lemma create_form_then_view_witness :
  submitted Tags.create Cases.new_c = true
  /\ (forall i t, Sample.two_tags !! i = Some t -> name t <> tag_name Cases.new_c)
  /\ Sample.two_tags !! new_id Sample.later = None
  /\ Tags.view "c" (Tags.modal_tag_handling Cases.new_c Sample.later Sample.two_tags).1
     = Sent (Content "third").
Proof.
  assert (H : submitted Tags.create Cases.new_c = true) by reflexivity.
  assert (Hid : Sample.two_tags !! new_id Sample.later = None) by reflexivity.
  split; [exact H|]. split; [exact two_tags_no_c|]. split; [exact Hid|].
  exact (proj1 (proj2 (create_form_then_view Cases.new_c Sample.later Sample.two_tags
                         H two_tags_no_c Hid))).
Defined.

Lemma run_from_forms_bounded_witness :
  let t := edited Cases.b_to_c (mkWorld 30 3) (created Sample.new_b (mkWorld 20 2)) in
  Forall from_forms Cases.create_edit
  /\ run Cases.create_edit ∅ !! 2%N = Some t
  /\ bounded t.
Proof.
  intros t.
  assert (H : Forall from_forms Cases.create_edit).
  { repeat constructor.
    - exists Tags.create. split; [by left | reflexivity].
    - exists Tags.create. split; [by left | reflexivity].
    - exists Cases.edit_b_form. split; [|reflexivity].
      right. by exists "b", Sample.two_tags. }
  assert (Hi : run Cases.create_edit ∅ !! 2%N = Some t) by reflexivity.
  split; [exact H|]. split; [exact Hi|].
  exact (run_from_forms_bounded Cases.create_edit 2 t H Hi).
Defined.

Lemma add_tag_then_delete_witness :
  (forall i t, Sample.two_tags !! i = Some t -> name t <> tag_name Cases.new_c)
  /\ Sample.two_tags !! new_id Sample.later = None
  /\ Tags.delete "c" (Tags.add_tag Cases.new_c Sample.later Sample.two_tags).1
     = (Sample.two_tags, Sent (Deleted "c")).
Proof.
  assert (Hid : Sample.two_tags !! new_id Sample.later = None) by reflexivity.
  split; [exact two_tags_no_c|]. split; [exact Hid|].
  exact (add_tag_then_delete Cases.new_c Sample.later Sample.two_tags two_tags_no_c Hid).
Defined.

Lemma delete_then_add_tag_witness :
  unique_names Sample.two_tags
  /\ (exists i t, Sample.two_tags !! i = Some t /\ name t = tag_name Cases.a_again)
  /\ (Tags.delete "a" Sample.two_tags).1 !! new_id Sample.later = None
  /\ Tags.view "a"
       (Tags.add_tag Cases.a_again Sample.later (Tags.delete "a" Sample.two_tags).1).1
     = Sent (Content "again").
Proof.
  assert (H : exists i t, Sample.two_tags !! i = Some t /\ name t = tag_name Cases.a_again).
  { exists 1%N, (created Sample.new_a (mkWorld 10 1)). split; reflexivity. }
  assert (Hid : (Tags.delete (tag_name Cases.a_again) Sample.two_tags).1
                  !! new_id Sample.later = None) by reflexivity.
  split; [exact two_tags_unique_names|]. split; [exact H|]. split; [exact Hid|].
  exact (proj2 (delete_then_add_tag Cases.a_again Sample.later Sample.two_tags
                  two_tags_unique_names H Hid)).
Defined.

Lemma two_tags_c_free :
  forall j u, Sample.two_tags !! j = Some u -> name u = tag_name Cases.b_to_c -> j = 2%N.
Proof. intros j u Hj Hn. by apply two_tags_no_c in Hj. Defined.

Lemma edit_tag_then_view_witness :
  Oid.valid 2 /\ custom_id Cases.b_to_c = edit_modal_id 2
  /\ Sample.two_tags !! 2%N = Some (created Sample.new_b (mkWorld 20 2))
  /\ unique_names Sample.two_tags
  /\ Tags.view "c" (Tags.edit_tag Cases.b_to_c Sample.later Sample.two_tags).1
     = Sent (Content "changed")
  /\ Tags.view "b" (Tags.edit_tag Cases.b_to_c Sample.later Sample.two_tags).1
     = Raised (BadArgument_NotExist "b").
Proof.
  assert (Hv : Oid.valid 2) by reflexivity.
  assert (Hc : custom_id Cases.b_to_c = edit_modal_id 2) by reflexivity.
  assert (Ht : Sample.two_tags !! 2%N = Some (created Sample.new_b (mkWorld 20 2)))
    by reflexivity.
  split; [exact Hv|]. split; [exact Hc|]. split; [exact Ht|].
  split; [exact two_tags_unique_names|].
  destruct (edit_tag_then_view Cases.b_to_c Sample.later Sample.two_tags 2 _
              Hv Hc Ht two_tags_unique_names two_tags_c_free) as [H1 H2].
  split; [exact H1|]. apply H2. discriminate.
Defined.

Lemma info_after_add_tag_witness :
  (forall i t, Sample.two_tags !! i = Some t -> name t <> tag_name Cases.new_c)
  /\ Sample.two_tags !! new_id Sample.later = None
  /\ exists e,
       Tags.info Cases.relative "/tag view" "c"
         (Tags.add_tag Cases.new_c Sample.later Sample.two_tags).1 = Send e
       /\ info_title e = "c".
Proof.
  assert (Hid : Sample.two_tags !! new_id Sample.later = None) by reflexivity.
  split; [exact two_tags_no_c|]. split; [exact Hid|].
  destruct (info_after_add_tag Cases.relative "/tag view" Cases.new_c Sample.later
              Sample.two_tags two_tags_no_c Hid) as (e & He & Ht & _).
  exists e. auto.
Defined.

Lemma info_after_edit_tag_witness :
  Oid.valid 2 /\ custom_id Cases.b_to_c = edit_modal_id 2
  /\ Sample.two_tags !! 2%N = Some (created Sample.new_b (mkWorld 20 2))
  /\ exists e,
       Tags.info Cases.relative "/tag view" "c"
         (Tags.edit_tag Cases.b_to_c Sample.later Sample.two_tags).1 = Send e
       /\ info_title e = "c".
Proof.
  assert (Hv : Oid.valid 2) by reflexivity.
  assert (Hc : custom_id Cases.b_to_c = edit_modal_id 2) by reflexivity.
  assert (Ht : Sample.two_tags !! 2%N = Some (created Sample.new_b (mkWorld 20 2)))
    by reflexivity.
  split; [exact Hv|]. split; [exact Hc|]. split; [exact Ht|].
  destruct (info_after_edit_tag Cases.relative "/tag view" Cases.b_to_c Sample.later
              Sample.two_tags 2 _ Hv Hc Ht two_tags_c_free) as (e & He & Hti & _).
  exists e. auto.
Defined.

End MoreWitnesses.
